(** * Gather: the registration ledger of [routes/api.js]

    A shallow embedding of the RSVP routes of the Gather event platform
    (registration, cancellation with waitlist promotion, waitlist join,
    manual and QR check-in, dashboard) together with the properties the
    specification states about them.

    The SQL tables are lists of rows in insertion order; a [SELECT ... WHERE]
    that reads one row is [find], an [UPDATE ... WHERE] is a [map] that
    rewrites every matching row, an [INSERT] appends.  Values that the
    routes draw from the outside world ([uuidv4()], [crypto.randomBytes],
    the clock) are explicit arguments of the operations. *)

From Stdlib Require Import Ascii String Bool ZArith QArith Arith Lia List Sorted.
Import ListNotations.
Close Scope Q_scope.
Local Open Scope string_scope.

(** ** Rows *)

(** A row of [events]; only the columns the RSVP routes read. *)
Record Event := mkEvent {
  ev_id : string;
  ev_title : string;
  ev_capacity : Q;              (* a JSON number, stored as it came *)
  ev_status : string;
  ev_user_id : option string;   (* NULL for legacy events *)
  ev_slug : string
}.

(** The object handed to [JSON.stringify] before it is drawn as a QR code:
    [{ attendeeId, eventId, name, email }].  The row keeps this payload; the
    image encoding ([QRCode.toDataURL]) is an external, pure step. *)
Record QrPayload := mkQr {
  attendeeId : string;
  eventId : string;
  qr_name : string;
  qr_email : string
}.

Record Attendee := mkAttendee {
  att_id : string;
  att_event_id : string;
  att_name : string;
  att_email : string;
  att_qr_code : QrPayload;
  att_cancel_token : option string;
  att_checked_in : bool;
  att_checked_in_at : option string;
  att_cancelled : bool;
  att_created_at : nat
}.

Record WaitlistEntry := mkWaitlistEntry {
  wl_id : string;
  wl_event_id : string;
  wl_name : string;
  wl_email : string;
  wl_notified : bool;
  wl_created_at : nat
}.

Record Store := mkStore {
  events : list Event;
  attendees : list Attendee;
  waitlist : list WaitlistEntry
}.

(** Modelled from the spec: the [CREATE TABLE] statements of the current
    [db.js] (columns [cancelled], [checked_in_at], [cancel_token] and the
    [waitlist] table) are not part of the sources at hand.  Following the data
    model, a freshly inserted attendee has [checked_in = 0], no
    [checked_in_at], [cancelled = 0] and [created_at] equal to the insertion
    time; a fresh waitlist entry has [notified = 0]. *)
Definition new_attendee (id event_id name email : string) (qr : QrPayload)
    (cancel_token : string) (now : nat) : Attendee :=
  mkAttendee id event_id name email qr (Some cancel_token) false None false now.

Definition new_waitlist_entry (id event_id name email : string) (now : nat)
    : WaitlistEntry :=
  mkWaitlistEntry id event_id name email false now.

(** ** Outcomes *)

Inductive Error :=
| MissingFields          (* 400 'Name and email are required' *)
| Unauthorized           (* 401 'Please log in to continue' *)
| NotFound               (* 404 *)
| EventUnavailable       (* 400 cancelled or draft event *)
| DuplicateRegistration  (* 409 *)
| CapacityExceeded       (* 400 'FULL' *)
| AlreadyWaitlisted      (* 409 *)
| InvalidToken           (* 403 'Invalid cancellation link' *)
| Forbidden              (* 403 dashboard *)
| InvalidPayload         (* 400 'Invalid QR code' / 'Invalid QR code data' *)
| RsvpCancelled          (* 400 'This RSVP has been cancelled' *)
| InternalError.         (* 500, the route's catch clause *)

Inductive Result (A : Type) :=
| Ok (a : A)
| Err (e : Error).
Arguments Ok {A} a.
Arguments Err {A} e.

Definition is_ok {A} (r : Result A) : bool :=
  match r with Ok _ => true | Err _ => false end.

(** JavaScript truthiness of a string: only the empty string is falsy. *)
Definition truthy (s : string) : bool := negb (s =? EmptyString).

(** Truthiness of a nullable TEXT column. *)
Definition truthy_opt (o : option string) : bool :=
  match o with Some s => truthy s | None => false end.

(** ** Queries *)

(** [SELECT * FROM events WHERE slug = ?] *)
Definition find_event_by_slug (s : Store) (slug : string) : option Event :=
  find (fun e => ev_slug e =? slug) (events s).

(** [SELECT * FROM events WHERE id = ?] *)
Definition find_event_by_id (s : Store) (id : string) : option Event :=
  find (fun e => ev_id e =? id) (events s).

(** [SELECT * FROM attendees WHERE id = ?] *)
Definition find_attendee (s : Store) (id : string) : option Attendee :=
  find (fun a => att_id a =? id) (attendees s).

(** [SELECT id, cancelled FROM attendees WHERE event_id = ? AND email = ?] *)
Definition same_registration (event_id email : string) (a : Attendee) : bool :=
  (att_event_id a =? event_id) && (att_email a =? email).

Definition find_registration (s : Store) (event_id email : string)
    : option Attendee :=
  find (same_registration event_id email) (attendees s).

(** [SELECT COUNT( * ) FROM attendees WHERE event_id = ? AND cancelled = 0] *)
Definition is_active (event_id : string) (a : Attendee) : bool :=
  (att_event_id a =? event_id) && negb (att_cancelled a).

Definition count_active (s : Store) (event_id : string) : Z :=
  Z.of_nat (length (filter (is_active event_id) (attendees s))).

(** [UPDATE attendees SET ... WHERE id = ?] *)
Definition update_attendee (id : string) (f : Attendee -> Attendee)
    (l : list Attendee) : list Attendee :=
  map (fun a => if att_id a =? id then f a else a) l.

Definition with_attendees (s : Store) (l : list Attendee) : Store :=
  mkStore (events s) l (waitlist s).

Definition with_waitlist (s : Store) (l : list WaitlistEntry) : Store :=
  mkStore (events s) (attendees s) l.

(** [count >= event.capacity], the count an integer and the capacity any
    number. *)
Definition at_capacity (s : Store) (event : Event) : bool :=
  Qle_bool (ev_capacity event) (inject_Z (count_active s (ev_id event))).

(** ** Registration: [POST /events/:slug/register] *)

Record Registration := mkRegistration {
  reg_id : string;
  reg_name : string;
  reg_email : string;
  reg_qr_code : QrPayload;
  reg_event : Event;
  reg_cancel_token : option string;  (* only on a fresh registration *)
  reg_reactivated : bool             (* only on a reactivation *)
}.

(** [SET cancelled = 0, name = ?, qr_code = ?, checked_in = 0] *)
Definition reactivate (name : string) (qr : QrPayload) (a : Attendee)
    : Attendee :=
  mkAttendee (att_id a) (att_event_id a) name (att_email a) qr
    (att_cancel_token a) false (att_checked_in_at a) false (att_created_at a).

Definition register (s : Store) (slug name email : string)
    (uuid token : string) (now : nat) : Result Registration * Store :=
  if negb (truthy name) || negb (truthy email) then (Err MissingFields, s)
  else
    match find_event_by_slug s slug with
    | None => (Err NotFound, s)
    | Some event =>
      if ev_status event =? "cancelled" then (Err EventUnavailable, s)
      else if ev_status event =? "draft" then (Err EventUnavailable, s)
      else
        match find_registration s (ev_id event) email with
        | Some existing =>
          if negb (att_cancelled existing) then (Err DuplicateRegistration, s)
          else
            let qr := mkQr (att_id existing) (ev_id event) name email in
            (Ok (mkRegistration (att_id existing) name email qr event None true),
             with_attendees s
               (update_attendee (att_id existing) (reactivate name qr)
                  (attendees s)))
        | None =>
          if at_capacity s event
          then (Err CapacityExceeded, s)
          else
            let qr := mkQr uuid (ev_id event) name email in
            (Ok (mkRegistration uuid name email qr event (Some token) false),
             with_attendees s
               (attendees s ++
                  [new_attendee uuid (ev_id event) name email qr token now])%list)
        end
    end.

(** ** Cancellation: [POST /attendees/:id/cancel] *)

(** The [cancel_token] field of the request body. *)
Inductive ReqToken :=
| TokAbsent                 (* undefined, or a value that is no string *)
| TokNull                   (* JSON null *)
| TokString (t : string).

(** [attendee.cancel_token !== cancel_token] *)
Definition token_differs (stored : option string) (given : ReqToken) : bool :=
  match stored, given with
  | None, TokNull => false
  | Some a, TokString b => negb (a =? b)
  | _, _ => true
  end.

Definition set_cancelled (a : Attendee) : Attendee :=
  mkAttendee (att_id a) (att_event_id a) (att_name a) (att_email a)
    (att_qr_code a) (att_cancel_token a) (att_checked_in a)
    (att_checked_in_at a) true (att_created_at a).

Definition set_notified (w : WaitlistEntry) : WaitlistEntry :=
  mkWaitlistEntry (wl_id w) (wl_event_id w) (wl_name w) (wl_email w) true
    (wl_created_at w).

(** [WHERE event_id = ? AND notified = 0] *)
Definition is_pending (event_id : string) (w : WaitlistEntry) : bool :=
  (wl_event_id w =? event_id) && negb (wl_notified w).

(** [ORDER BY created_at ASC LIMIT 1]: the earliest row, the first inserted
    among rows of equal [created_at]. *)
Fixpoint oldest (l : list WaitlistEntry) : option WaitlistEntry :=
  match l with
  | [] => None
  | w :: rest =>
    match oldest rest with
    | None => Some w
    | Some w' => if (wl_created_at w <=? wl_created_at w')%nat then Some w
                 else Some w'
    end
  end.

Definition next_in_line (l : list WaitlistEntry) (event_id : string)
    : option WaitlistEntry :=
  oldest (filter (is_pending event_id) l).

(** [UPDATE waitlist SET notified = 1 WHERE id = ?] *)
Definition mark_notified (id : string) (l : list WaitlistEntry)
    : list WaitlistEntry :=
  map (fun w => if wl_id w =? id then set_notified w else w) l.

(** The waitlist step of the cancel route. *)
Definition promote (l : list WaitlistEntry) (event_id : string)
    : list WaitlistEntry :=
  match next_in_line l event_id with
  | Some nextInLine => mark_notified (wl_id nextInLine) l
  | None => l
  end.

Definition cancel (s : Store) (id : string) (cancel_token : ReqToken)
    : Result unit * Store :=
  match find_attendee s id with
  | None => (Err NotFound, s)
  | Some attendee =>
    if token_differs (att_cancel_token attendee) cancel_token
    then (Err InvalidToken, s)
    else
      (Ok tt,
       mkStore (events s)
         (update_attendee id set_cancelled (attendees s))
         (promote (waitlist s) (att_event_id attendee)))
  end.

(** ** Waitlist: [POST /events/:slug/waitlist] *)

Definition find_waitlisted (s : Store) (event_id email : string)
    : option WaitlistEntry :=
  find (fun w => (wl_event_id w =? event_id) && (wl_email w =? email))
    (waitlist s).

(** [COUNT( * ) ... WHERE event_id = ? AND created_at <= (created_at of id)] *)
Definition position (l : list WaitlistEntry) (event_id : string) (at_ : nat)
    : nat :=
  length (filter (fun w => (wl_event_id w =? event_id)
                           && (wl_created_at w <=? at_)%nat) l).

Definition joinWaitlist (s : Store) (slug name email : string)
    (uuid : string) (now : nat) : Result (string * nat) * Store :=
  if negb (truthy name) || negb (truthy email) then (Err MissingFields, s)
  else
    match find_event_by_slug s slug with
    | None => (Err NotFound, s)
    | Some event =>
      match find_waitlisted s (ev_id event) email with
      | Some _ => (Err AlreadyWaitlisted, s)
      | None =>
        let l := (waitlist s
                  ++ [new_waitlist_entry uuid (ev_id event) name email now])%list in
        (Ok (uuid, position l (ev_id event) now), with_waitlist s l)
      end
    end.

(** ** Check-in: [POST /attendees/:id/checkin] *)

Inductive CheckinMessage :=
| AlreadyCheckedIn          (* 'Already checked in' *)
| CheckedInSuccessfully.    (* 'Checked in successfully' *)

(** [SET checked_in = 1, checked_in_at = ?] *)
Definition set_checked_in (now : string) (a : Attendee) : Attendee :=
  mkAttendee (att_id a) (att_event_id a) (att_name a) (att_email a)
    (att_qr_code a) (att_cancel_token a) true (Some now) (att_cancelled a)
    (att_created_at a).

Definition checkIn (s : Store) (id : string) (now : string)
    : Result (CheckinMessage * Attendee) * Store :=
  match find_attendee s id with
  | None => (Err NotFound, s)
  | Some attendee =>
    if att_checked_in attendee then (Ok (AlreadyCheckedIn, attendee), s)
    else
      (Ok (CheckedInSuccessfully, set_checked_in now attendee),
       with_attendees s (update_attendee id (set_checked_in now) (attendees s)))
  end.

(** ** QR check-in: [POST /checkin/qr] *)

(** What [JSON.parse(qrData)] yields. *)
Inductive QrData :=
| QrMalformed                             (* the parser throws *)
| QrNull                                  (* null: destructuring throws *)
| QrObject (attendeeId : option string).  (* the attendeeId property *)

(** [SELECT a.*, e.title AS event_title FROM attendees a
     JOIN events e ON a.event_id = e.id WHERE a.id = ?] *)
Fixpoint join_event (evs : list Event) (l : list Attendee) (id : string)
    : option (Attendee * string) :=
  match l with
  | [] => None
  | a :: rest =>
    if att_id a =? id then
      match find (fun e => ev_id e =? att_event_id a) evs with
      | Some e => Some (a, ev_title e)
      | None => join_event evs rest id
      end
    else join_event evs rest id
  end.

Record QrCheckin := mkQrCheckin {
  qc_already_checked_in : bool;
  qc_id : string;
  qc_name : string;
  qc_email : string;
  qc_event_title : string;
  qc_checked_in : bool
}.

Definition checkInByQrPayload (s : Store) (qrData : QrData) (now : string)
    : Result QrCheckin * Store :=
  match qrData with
  | QrMalformed => (Err InvalidPayload, s)
  | QrNull => (Err InternalError, s)
  | QrObject None => (Err InvalidPayload, s)
  | QrObject (Some attendeeId) =>
    if negb (truthy attendeeId) then (Err InvalidPayload, s)
    else
      match join_event (events s) (attendees s) attendeeId with
      | None => (Err NotFound, s)
      | Some (attendee, event_title) =>
        if att_cancelled attendee then (Err RsvpCancelled, s)
        else
          let alreadyCheckedIn := att_checked_in attendee in
          (Ok (mkQrCheckin alreadyCheckedIn (att_id attendee)
                 (att_name attendee) (att_email attendee) event_title true),
           if alreadyCheckedIn then s
           else with_attendees s
                  (update_attendee attendeeId (set_checked_in now)
                     (attendees s)))
      end
  end.

(** ** Dashboard: [GET /events/:slug/attendees], behind [requireAuth] *)

(** The columns the dashboard selects. *)
Record DashboardRow := mkDashboardRow {
  row_id : string;
  row_name : string;
  row_email : string;
  row_checked_in : bool;
  row_checked_in_at : option string;
  row_cancelled : bool;
  row_created_at : nat
}.

Definition dashboard_row (a : Attendee) : DashboardRow :=
  mkDashboardRow (att_id a) (att_name a) (att_email a) (att_checked_in a)
    (att_checked_in_at a) (att_cancelled a) (att_created_at a).

(** [ORDER BY created_at DESC], rows of equal time in insertion order. *)
Fixpoint insert_desc (a : Attendee) (l : list Attendee) : list Attendee :=
  match l with
  | [] => [a]
  | b :: rest =>
    if (att_created_at a <? att_created_at b)%nat then b :: insert_desc a rest
    else a :: l
  end.

Definition newest_first (l : list Attendee) : list Attendee :=
  fold_right insert_desc [] l.

Record Dashboard := mkDashboard {
  dash_event : Event;
  dash_attendees : list DashboardRow;
  dash_total : nat;
  dash_checked_in : nat;
  dash_waitlist_count : nat;
  dash_checkin_times : list string
}.

Definition aggregate (s : Store) (event : Event) : Dashboard :=
  let attendees_ :=
    map dashboard_row
      (newest_first
         (filter (fun a => att_event_id a =? ev_id event) (attendees s))) in
  let active := filter (fun a => negb (row_cancelled a)) attendees_ in
  let checkedIn := filter row_checked_in active in
  let wl := length (filter (fun w => wl_event_id w =? ev_id event)
                      (waitlist s)) in
  let checkinTimes :=
    flat_map (fun a => match row_checked_in_at a with
                       | Some t => if truthy t then [t] else []
                       | None => []
                       end) checkedIn in
  mkDashboard event active (length active) (length checkedIn) wl checkinTimes.

(** [session_user] is [req.session.user.id], [None] without a login. *)
Definition dashboard (s : Store) (slug : string) (session_user : option string)
    : Result Dashboard :=
  match session_user with
  | None => Err Unauthorized
  | Some user =>
    match find_event_by_slug s slug with
    | None => Err NotFound
    | Some event =>
      if truthy_opt (ev_user_id event)
         && negb (match ev_user_id event with
                  | Some owner => owner =? user
                  | None => false
                  end)
      then Err Forbidden
      else Ok (aggregate s event)
    end
  end.

(** ** Histories of ledger operations *)

Inductive Op :=
| Register (slug name email uuid token : string) (now : nat)
| Cancel (id : string) (cancel_token : ReqToken)
| JoinWaitlist (slug name email uuid : string) (now : nat)
| CheckIn (id now : string)
| CheckInByQr (qrData : QrData) (now : string).

Definition step (s : Store) (o : Op) : Store :=
  match o with
  | Register slug name email uuid token now =>
      snd (register s slug name email uuid token now)
  | Cancel id tok => snd (cancel s id tok)
  | JoinWaitlist slug name email uuid now =>
      snd (joinWaitlist s slug name email uuid now)
  | CheckIn id now => snd (checkIn s id now)
  | CheckInByQr q now => snd (checkInByQrPayload s q now)
  end.

Definition run (s : Store) (ops : list Op) : Store := fold_left step ops s.

(** ** Predicates used by the statements *)

(** The data-model invariant on one record: [checked_in_at] is set exactly
    when [checked_in] is true. *)
Definition checkin_consistent (a : Attendee) : Prop :=
  att_checked_in_at a <> None <-> att_checked_in a = true.

(** An operation that is a cancellation request for attendee [id]. *)
Definition cancels (id : string) (o : Op) : bool :=
  match o with
  | Cancel id' _ => id' =? id
  | _ => false
  end.

(** The record the registration route finds for (event, email) is the
    non-cancelled attendee [id]. *)
Definition registered_in (l : list Attendee) (event_id email id : string)
    : Prop :=
  exists a, find (same_registration event_id email) l = Some a
            /\ att_id a = id /\ att_cancelled a = false.

(** Waitlist entries of an event that have been notified, and those still
    pending. *)
Definition notified_count (l : list WaitlistEntry) (event_id : string) : nat :=
  length (filter (fun w => (wl_event_id w =? event_id) && wl_notified w) l).

Definition pending_count (l : list WaitlistEntry) (event_id : string) : nat :=
  length (filter (is_pending event_id) l).

(** Primary keys: no two rows of a table share an id. *)
Definition unique_ids (s : Store) : Prop :=
  NoDup (map att_id (attendees s)) /\ NoDup (map wl_id (waitlist s)).

(** The id an inserting operation brings is not yet used in its table, as
    [uuidv4()] promises. *)
Definition fresh_for (s : Store) (o : Op) : Prop :=
  match o with
  | Register _ _ _ uuid _ _ => ~ In uuid (map att_id (attendees s))
  | JoinWaitlist _ _ _ uuid _ => ~ In uuid (map wl_id (waitlist s))
  | _ => True
  end.

(** ** Sample stores and histories *)

Definition draft_event : Event :=
  mkEvent "e1" "Rocq meetup" 10 "draft" (Some "u1") "meetup".

Definition draft_store : Store := mkStore [draft_event] [] [].

(** A draft event that already holds a cancelled registration. *)
Definition draft_cancelled_store : Store :=
  mkStore [draft_event]
    [mkAttendee "a1" "e1" "Ann" "ann@example.org"
       (mkQr "a1" "e1" "Ann" "ann@example.org") (Some "t1")
       false None true 0]
    [].

Definition gather_event : Event :=
  mkEvent "e2" "Gather night" 1 "published" (Some "u1") "gather".

Definition legacy_event : Event :=
  mkEvent "e3" "Old picnic" 50 "published" None "picnic".

Definition gather_store : Store := mkStore [gather_event; legacy_event] [] [].

(** Ann registers, is checked in at the door, then cancels. *)
Definition ann_checked_in_then_cancelled : list Op :=
  [ Register "gather" "Ann" "ann@example.org" "a1" "t1" 1;
    CheckIn "a1" "2024-05-01T18:00:00.000Z";
    Cancel "a1" (TokString "t1") ].

(** Ann registers and cancels, Bob takes the only seat. *)
Definition ann_cancelled_bob_registered : list Op :=
  [ Register "gather" "Ann" "ann@example.org" "a1" "t1" 1;
    Cancel "a1" (TokString "t1");
    Register "gather" "Bob" "bob@example.org" "b1" "t2" 2 ].

(** Ann holds the only seat; Bob, then Cy, queue behind her. *)
Definition ann_registered_two_waiting : list Op :=
  [ Register "gather" "Ann" "ann@example.org" "a1" "t1" 1;
    JoinWaitlist "gather" "Bob" "bob@example.org" "w1" 3;
    JoinWaitlist "gather" "Cy" "cy@example.org" "w2" 5 ].

(** ** Slugs *)

(** Strings are read as sequences of code units below 256. *)
Definition between (lo hi : nat) (c : ascii) : bool :=
  (lo <=? nat_of_ascii c)%nat && (nat_of_ascii c <=? hi)%nat.

Definition is_dash (c : ascii) : bool := Ascii.eqb c "-".

(** The character class [[a-z0-9]]. *)
Definition slug_char (c : ascii) : bool := between 97 122 c || between 48 57 c.

(** The character class [[a-z0-9-]]. *)
Definition custom_slug_char (c : ascii) : bool := slug_char c || is_dash c.

(** [String.prototype.toLowerCase], on code units below 256: the letters A-Z
    and the accented capitals 192-222 (215, the multiplication sign, apart). *)
Definition toLowerCase_char (c : ascii) : ascii :=
  if between 65 90 c
     || (between 192 222 c && negb (nat_of_ascii c =? 215)%nat)
  then ascii_of_nat (nat_of_ascii c + 32)
  else c.

Fixpoint toLowerCase (s : string) : string :=
  match s with
  | EmptyString => EmptyString
  | String c rest => String (toLowerCase_char c) (toLowerCase rest)
  end.

(** White space of [String.prototype.trim] below 256: tab to carriage
    return, space and no-break space. *)
Definition is_space (c : ascii) : bool :=
  between 9 13 c || (nat_of_ascii c =? 32)%nat || (nat_of_ascii c =? 160)%nat.

Fixpoint trimStart (s : string) : string :=
  match s with
  | EmptyString => EmptyString
  | String c rest => if is_space c then trimStart rest else s
  end.

Fixpoint trimEnd (s : string) : string :=
  match s with
  | EmptyString => EmptyString
  | String c rest =>
    match trimEnd rest with
    | EmptyString => if is_space c then EmptyString else String c EmptyString
    | rest' => String c rest'
    end
  end.

Definition trim (s : string) : string := trimEnd (trimStart s).

(** [.replace(/[^...]+/g, '-')]: every maximal run of characters outside
    the class [keep] becomes one dash.  [in_run] tells that the previous
    character was outside the class. *)
Fixpoint replace_runs (keep : ascii -> bool) (in_run : bool) (s : string)
    : string :=
  match s with
  | EmptyString => EmptyString
  | String c rest =>
    if keep c then String c (replace_runs keep false rest)
    else if in_run then replace_runs keep true rest
    else String "-" (replace_runs keep true rest)
  end.

Definition strip_leading_dash (s : string) : string :=
  match s with
  | String c rest => if is_dash c then rest else s
  | EmptyString => EmptyString
  end.

Fixpoint strip_trailing_dash (s : string) : string :=
  match s with
  | EmptyString => EmptyString
  | String c rest =>
    match rest with
    | EmptyString => if is_dash c then EmptyString else s
    | _ => String c (strip_trailing_dash rest)
    end
  end.

(** [.replace(/^-|-$/g, '')]: one dash at the start and one at the end. *)
Definition strip_edge_dashes (s : string) : string :=
  strip_trailing_dash (strip_leading_dash s).

(** [custom_slug.trim().toLowerCase().replace(/[^a-z0-9-]+/g, '-')
     .replace(/^-|-$/g, '')] *)
Definition clean_slug (custom_slug : string) : string :=
  strip_edge_dashes
    (replace_runs custom_slug_char false (toLowerCase (trim custom_slug))).

(** The [base] of [generateSlug]. *)
Definition slug_base (title : string) : string :=
  substring 0 40
    (strip_edge_dashes (replace_runs slug_char false (toLowerCase title))).

(** [generateSlug(title)]; [suffix] is
    [Math.random().toString(36).substring(2, 8)]. *)
Definition generateSlug (title suffix : string) : string :=
  slug_base title ++ "-" ++ suffix.

(** ** Event management: [POST], [PUT], [DELETE /events] *)

Inductive EventError :=
| EvUnauthorized     (* 401, requireAuth *)
| EvMissingFields    (* 400 'Missing required fields' *)
| EvNotFound         (* 404 *)
| EvForbidden        (* 403 'Not authorized' *)
| EvSlugTaken.       (* 409 'This URL is already taken' *)

Inductive Outcome (A : Type) :=
| Done (a : A)
| Failed (e : EventError).
Arguments Done {A} a.
Arguments Failed {A} e.

(** The fields of the request body the routes test or store in a modelled
    column.  An absent text field is the empty string and an absent capacity
    is 0: both are falsy, which is all the routes ask of them.  The capacity
    is a JSON number, whole or not: the routes store [capacity || 50]
    without looking at it.  An absent or null [custom_slug] is [None]. *)
Record EventForm := mkEventForm {
  form_title : string;
  form_date : string;
  form_start_time : string;
  form_end_time : string;
  form_location : string;
  form_capacity : Q;
  form_status : string;
  form_custom_slug : option string
}.

(** [x || y] on strings and on numbers. *)
Definition or_else (x y : string) : string := if truthy x then x else y.
Definition or_else_number (x y : Q) : Q := if Qeq_bool x 0 then y else x.

Definition with_events (s : Store) (l : list Event) : Store :=
  mkStore l (attendees s) (waitlist s).

Definition createEvent (s : Store) (session_user : option string)
    (body : EventForm) (uuid suffix : string)
    : Outcome (string * string) * Store :=
  match session_user with
  | None => (Failed EvUnauthorized, s)
  | Some user =>
    if negb (truthy (form_title body)) || negb (truthy (form_date body))
       || negb (truthy (form_start_time body))
       || negb (truthy (form_end_time body))
       || negb (truthy (form_location body))
    then (Failed EvMissingFields, s)
    else
      let insert slug :=
        (Done (uuid, slug),
         with_events s
           (events s ++
              [mkEvent uuid (form_title body)
                 (or_else_number (form_capacity body) 50)
                 (or_else (form_status body) "published")
                 (Some user) slug])%list) in
      match form_custom_slug body with
      | Some custom_slug =>
        if truthy custom_slug && truthy (trim custom_slug) then
          let slug := clean_slug custom_slug in
          match find_event_by_slug s slug with
          | Some _ => (Failed EvSlugTaken, s)
          | None => insert slug
          end
        else insert (generateSlug (form_title body) suffix)
      | None => insert (generateSlug (form_title body) suffix)
      end
  end.

(** [event.user_id !== req.session.user.id] *)
Definition not_owner (event : Event) (user : string) : bool :=
  match ev_user_id event with
  | Some owner => negb (owner =? user)
  | None => true
  end.

(** [UPDATE events SET title=?, ..., capacity=?, status=?, slug=? WHERE id=?] *)
Definition apply_form (event : Event) (body : EventForm) (newSlug : string)
    (e : Event) : Event :=
  if ev_id e =? ev_id event then
    mkEvent (ev_id e)
      (or_else (form_title body) (ev_title event))
      (or_else_number (form_capacity body) (ev_capacity event))
      (or_else (form_status body) (ev_status event))
      (ev_user_id e) newSlug
  else e.

Definition updateEvent (s : Store) (session_user : option string)
    (slug : string) (body : EventForm) : Outcome string * Store :=
  match session_user with
  | None => (Failed EvUnauthorized, s)
  | Some user =>
    match find_event_by_slug s slug with
    | None => (Failed EvNotFound, s)
    | Some event =>
      if not_owner event user then (Failed EvForbidden, s)
      else
        let commit newSlug :=
          (Done newSlug,
           with_events s (map (apply_form event body newSlug) (events s))) in
        match form_custom_slug body with
        | Some custom_slug =>
          let cleaned := clean_slug custom_slug in
          if truthy cleaned && negb (cleaned =? slug) then
            match find (fun e => (ev_slug e =? cleaned)
                                 && negb (ev_id e =? ev_id event))
                    (events s) with
            | Some _ => (Failed EvSlugTaken, s)
            | None => commit cleaned
            end
          else commit slug
        | None => commit slug
        end
    end
  end.

Definition deleteEvent (s : Store) (session_user : option string)
    (slug : string) : Outcome unit * Store :=
  match session_user with
  | None => (Failed EvUnauthorized, s)
  | Some user =>
    match find_event_by_slug s slug with
    | None => (Failed EvNotFound, s)
    | Some event =>
      if not_owner event user then (Failed EvForbidden, s)
      else
        (Done tt,
         mkStore
           (filter (fun e => negb (ev_id e =? ev_id event)) (events s))
           (filter (fun a => negb (att_event_id a =? ev_id event))
              (attendees s))
           (filter (fun w => negb (wl_event_id w =? ev_id event))
              (waitlist s)))
    end
  end.

(** ** Public reads: [GET /events/:slug], [GET /attendees/:id] *)

Record EventView := mkEventView {
  view_event : Event;
  view_rsvp_count : Z;
  view_is_owner : bool     (* truthiness of [is_owner] *)
}.

Definition getEvent (s : Store) (slug : string) (session_user : option string)
    : Result EventView :=
  match find_event_by_slug s slug with
  | Some event =>
    Ok (mkEventView event (count_active s (ev_id event))
          (match session_user, ev_user_id event with
           | Some user, Some owner => user =? owner
           | _, _ => false
           end))
  | None => Err NotFound
  end.

(** The attendee row, all columns, with its event if there is one. *)
Definition getAttendee (s : Store) (id : string)
    : Result (Attendee * option Event) :=
  match find_attendee s id with
  | Some attendee => Ok (attendee, find_event_by_id s (att_event_id attendee))
  | None => Err NotFound
  end.

(** What a client that read [cancel_token] from a JSON answer sends back. *)
Definition token_of_json (t : option string) : ReqToken :=
  match t with
  | Some x => TokString x
  | None => TokNull
  end.

(** ** Organizer reads: [GET /events/:slug/export] and [.../waitlist] *)

(** [ORDER BY created_at ASC], rows of equal time in insertion order. *)
Fixpoint insert_asc (a : Attendee) (l : list Attendee) : list Attendee :=
  match l with
  | [] => [a]
  | b :: rest =>
    if (att_created_at b <? att_created_at a)%nat then b :: insert_asc a rest
    else a :: l
  end.

Definition oldest_first (l : list Attendee) : list Attendee :=
  fold_right insert_asc [] l.

Fixpoint insert_waiting (w : WaitlistEntry) (l : list WaitlistEntry)
    : list WaitlistEntry :=
  match l with
  | [] => [w]
  | b :: rest =>
    if (wl_created_at b <? wl_created_at w)%nat then b :: insert_waiting w rest
    else w :: l
  end.

Definition queue_order (l : list WaitlistEntry) : list WaitlistEntry :=
  fold_right insert_waiting [] l.

(** The six fields of one line of the export, before they are quoted and
    joined with commas. *)
Record CsvRow := mkCsvRow {
  csv_name : string;
  csv_email : string;
  csv_status : string;
  csv_checked_in : string;
  csv_checked_in_at : string;
  csv_registered_at : nat
}.

Definition csv_row (r : Attendee) : CsvRow :=
  mkCsvRow (att_name r) (att_email r)
    (if att_cancelled r then "Cancelled"
     else if att_checked_in r then "Checked In" else "Registered")
    (if att_checked_in r then "Yes" else "No")
    (match att_checked_in_at r with Some t => t | None => EmptyString end)
    (att_created_at r).

Definition exportCsv (s : Store) (slug : string) (session_user : option string)
    : Result (list CsvRow) :=
  match session_user with
  | None => Err Unauthorized
  | Some user =>
    match find_event_by_slug s slug with
    | None => Err NotFound
    | Some event =>
      if not_owner event user then Err Forbidden
      else
        Ok (map csv_row
              (oldest_first
                 (filter (fun a => att_event_id a =? ev_id event)
                    (attendees s))))
    end
  end.

Definition listWaitlist (s : Store) (slug : string)
    (session_user : option string) : Result (list WaitlistEntry) :=
  match session_user with
  | None => Err Unauthorized
  | Some user =>
    match find_event_by_slug s slug with
    | None => Err NotFound
    | Some event =>
      if not_owner event user then Err Forbidden
      else
        Ok (queue_order
              (filter (fun w => wl_event_id w =? ev_id event) (waitlist s)))
    end
  end.

(** ** Accounts: [routes/auth.js] *)

Record User := mkUser {
  user_id : string;
  user_name : string;
  user_email : string;
  user_password : string     (* the bcrypt hash *)
}.

(** [req.session.user] *)
Record SessionUser := mkSessionUser {
  su_id : string;
  su_name : string;
  su_email : string
}.

Inductive AuthError :=
| AuthMissingFields        (* 400 *)
| AuthShortPassword        (* 400 'Password must be at least 6 characters' *)
| AuthEmailTaken           (* 409 *)
| AuthInvalidCredentials.  (* 401 'Invalid email or password' *)

(** [SELECT ... FROM users WHERE email = ?] *)
Definition find_user (users : list User) (email : string) : option User :=
  find (fun u => user_email u =? email) users.

Section Bcrypt.

(** [bcrypt.hash(password, 10)], with the salt it draws made explicit, and
    [bcrypt.compare(password, hash)]. *)
Variable bcrypt_hash : string -> string -> string.
Variable bcrypt_compare : string -> string -> bool.

Definition signup (users : list User) (name email password uuid salt : string)
    : (AuthError + SessionUser) * list User :=
  if negb (truthy name) || negb (truthy email) || negb (truthy password)
  then (inl AuthMissingFields, users)
  else if (String.length password <? 6)%nat
  then (inl AuthShortPassword, users)
  else
    match find_user users email with
    | Some _ => (inl AuthEmailTaken, users)
    | None =>
      (inr (mkSessionUser uuid name email),
       (users ++ [mkUser uuid name email (bcrypt_hash salt password)])%list)
    end.

Definition login (users : list User) (email password : string)
    : AuthError + SessionUser :=
  if negb (truthy email) || negb (truthy password)
  then inl AuthMissingFields
  else
    match find_user users email with
    | None => inl AuthInvalidCredentials
    | Some user =>
      if bcrypt_compare password (user_password user)
      then inr (mkSessionUser (user_id user) (user_name user) (user_email user))
      else inl AuthInvalidCredentials
    end.

End Bcrypt.

(** ** Requests of all kinds, and what a store is expected to satisfy *)

Inductive Request :=
| Ledger (o : Op)
| CreateEvent (session_user : option string) (body : EventForm)
    (uuid suffix : string)
| UpdateEvent (session_user : option string) (slug : string)
    (body : EventForm)
| DeleteEvent (session_user : option string) (slug : string).

Definition serve (s : Store) (r : Request) : Store :=
  match r with
  | Ledger o => step s o
  | CreateEvent u body uuid suffix => snd (createEvent s u body uuid suffix)
  | UpdateEvent u slug body => snd (updateEvent s u slug body)
  | DeleteEvent u slug => snd (deleteEvent s u slug)
  end.

Definition serve_all (s : Store) (rs : list Request) : Store :=
  fold_left serve rs s.

(** The columns of an attendee row no route ever rewrites. *)
Definition att_key (a : Attendee)
    : string * string * string * option string * nat :=
  (att_id a, att_event_id a, att_email a, att_cancel_token a, att_created_at a).

(** The columns of a waitlist row no route ever rewrites. *)
Definition wl_key (w : WaitlistEntry)
    : string * string * string * string * nat :=
  (wl_id w, wl_event_id w, wl_name w, wl_email w, wl_created_at w).

(** Foreign keys: every attendee and waitlist row points to a stored event. *)
Definition references_ok (s : Store) : Prop :=
  (forall a, In a (attendees s) ->
             exists e, In e (events s) /\ ev_id e = att_event_id a) /\
  (forall w, In w (waitlist s) ->
             exists e, In e (events s) /\ ev_id e = wl_event_id w).

(** The keys of [events]: ids and slugs are unique. *)
Definition events_unique (s : Store) : Prop :=
  NoDup (map ev_id (events s)) /\ NoDup (map ev_slug (events s)).

(** A well-formed slug: characters of [[a-z0-9-]] only, no dash at either
    end. *)
Fixpoint all_chars (p : ascii -> bool) (s : string) : bool :=
  match s with
  | EmptyString => true
  | String c rest => p c && all_chars p rest
  end.

Fixpoint last_char (s : string) : option ascii :=
  match s with
  | EmptyString => None
  | String c rest =>
    match rest with
    | EmptyString => Some c
    | _ => last_char rest
    end
  end.

Definition first_char (s : string) : option ascii :=
  match s with
  | EmptyString => None
  | String c _ => Some c
  end.

Definition well_formed_slug (s : string) : Prop :=
  all_chars custom_slug_char s = true /\
  first_char s <> Some "-"%char /\ last_char s <> Some "-"%char.

(** No two dashes in a row. *)
Fixpoint no_double_dash (s : string) : bool :=
  match s with
  | EmptyString => true
  | String c rest =>
    match rest with
    | String d _ => negb (is_dash c && is_dash d) && no_double_dash rest
    | EmptyString => true
    end
  end.

(** Whether [createEvent] takes the slug from the request:
    [custom_slug && custom_slug.trim()]. *)
Definition uses_custom_slug (body : EventForm) : bool :=
  match form_custom_slug body with
  | Some custom_slug => truthy custom_slug && truthy (trim custom_slug)
  | None => false
  end.

(** What [uuidv4()] and the random suffix are trusted for when an event is
    created: an unused id and, when the slug is generated, an unused slug. *)
Definition fresh_event (s : Store) (r : Request) : Prop :=
  match r with
  | CreateEvent _ body uuid suffix =>
    ~ In uuid (map ev_id (events s)) /\
    (uses_custom_slug body = false ->
     ~ In (generateSlug (form_title body) suffix) (map ev_slug (events s)))
  | _ => True
  end.

(** The organizer puts the event back to draft and halves nothing else. *)
Definition back_to_draft : EventForm :=
  mkEventForm EmptyString EmptyString EmptyString EmptyString EmptyString
    0 "draft" None.

Definition picnic_form : EventForm :=
  mkEventForm "Summer Picnic 2025!" "2025-07-01" "12:00" "15:00" "Park"
    0 EmptyString None.

(** An organizer posts an event with a capacity of two and a half. *)
Definition workshop_form : EventForm :=
  mkEventForm "Workshop" "2025-07-01" "10:00" "12:00" "Lab" 2.5 EmptyString
    (Some "workshop").

Definition workshop_event : Event :=
  mkEvent "e4" "Workshop" 2.5 "published" (Some "u1") "workshop".

Definition workshop_store : Store :=
  snd (createEvent gather_store (Some "u1") workshop_form "e4" "k3x9ab").

Definition two_at_workshop : list Op :=
  [ Register "workshop" "Ann" "ann@example.org" "a1" "t1" 1;
    Register "workshop" "Bob" "bob@example.org" "b1" "t2" 2 ].

(** ** Requests that disturb a registration *)




(** * Properties *)

(** ** Basic facts about the queries *)

Lemma truthy_true (x : string) : x <> EmptyString -> truthy x = true.
Proof.
  intros H. unfold truthy. destruct (String.eqb_spec x EmptyString); [contradiction|reflexivity].
Qed.

Lemma eqb_neq_false (x y : string) : x <> y -> (x =? y) = false.
Proof. intros H. now apply String.eqb_neq. Qed.

Lemma find_append {A} (p : A -> bool) (l1 l2 : list A) :
  find p (l1 ++ l2) = match find p l1 with Some x => Some x | None => find p l2 end.
Proof.
  induction l1 as [|x l1 IH]; simpl; [reflexivity|].
  now destruct (p x).
Qed.

Lemma count_active_insert s event_id a :
  count_active (with_attendees s (attendees s ++ [a])%list) event_id
  = (count_active s event_id + (if is_active event_id a then 1 else 0))%Z.
Proof.
  unfold count_active, with_attendees; simpl.
  rewrite filter_app, length_app; simpl.
  destruct (is_active event_id a); simpl; lia.
Qed.

Lemma is_active_new_attendee uuid event_id name email qr token now :
  is_active event_id (new_attendee uuid event_id name email qr token now) = true.
Proof. unfold is_active; simpl. now rewrite String.eqb_refl. Qed.

(** The guards every registration passes before the ledger is consulted. *)
Lemma register_available s slug name email uuid token now event :
  name <> EmptyString -> email <> EmptyString ->
  find_event_by_slug s slug = Some event ->
  ev_status event <> "cancelled" -> ev_status event <> "draft" ->
  register s slug name email uuid token now =
  match find_registration s (ev_id event) email with
  | Some existing =>
    if negb (att_cancelled existing) then (Err DuplicateRegistration, s)
    else
      let qr := mkQr (att_id existing) (ev_id event) name email in
      (Ok (mkRegistration (att_id existing) name email qr event None true),
       with_attendees s
         (update_attendee (att_id existing) (reactivate name qr) (attendees s)))
  | None =>
    if at_capacity s event
    then (Err CapacityExceeded, s)
    else
      let qr := mkQr uuid (ev_id event) name email in
      (Ok (mkRegistration uuid name email qr event (Some token) false),
       with_attendees s
         (attendees s ++
            [new_attendee uuid (ev_id event) name email qr token now])%list)
  end.
Proof.
  intros Hn He Hev Hc Hd. unfold register.
  rewrite (truthy_true _ Hn), (truthy_true _ He), Hev; simpl.
  now rewrite (eqb_neq_false _ _ Hc), (eqb_neq_false _ _ Hd).
Qed.

(** ** Fresh registration and capacity *)

(** C1, as stated, fails in two ways.  On a draft event with free capacity
    and no record for the email, registration is refused with EventUnavailable
    although the count of non-cancelled attendees (0) is strictly below the
    capacity (10).  And on an event created with capacity 2.5 (the event
    routes store the number as it comes), with two attendees registered, a
    third fresh registration passes the test [2 >= 2.5] and leaves three
    non-cancelled attendees, more than the capacity. *)
Lemma register_departs_from_capacity_rule :
  (find_event_by_slug draft_store "meetup" = Some draft_event /\
   find_registration draft_store (ev_id draft_event) "ann@example.org" = None /\
   (inject_Z (count_active draft_store (ev_id draft_event))
    < ev_capacity draft_event)%Q /\
   register draft_store "meetup" "Ann" "ann@example.org" "a1" "t1" 0
   = (Err EventUnavailable, draft_store)) /\
  (let s := run workshop_store two_at_workshop in
   let r := register s "workshop" "Cy" "cy@example.org" "c1" "t3" 3 in
   find_event_by_slug s "workshop" = Some workshop_event /\
   find_registration s (ev_id workshop_event) "cy@example.org" = None /\
   count_active s (ev_id workshop_event) = 2%Z /\
   is_ok (fst r) = true /\
   count_active (snd r) (ev_id workshop_event) = 3%Z /\
   ~ (inject_Z (count_active (snd r) (ev_id workshop_event))
      <= ev_capacity workshop_event)%Q).
Proof.
  split.
  - split; [reflexivity|]. split; [reflexivity|]. split; [|reflexivity].
    reflexivity.
  - cbv zeta. do 5 (split; [reflexivity|]).
    unfold Qle. simpl. lia.
Qed.

(** C1 (amended): let the event exist and hold no attendee record for the
    email.  With an empty name or email the request is rejected, and on a
    cancelled or draft event it fails with EventUnavailable, whatever the
    count.  Otherwise [register] succeeds exactly when the count of
    non-cancelled attendees is strictly below the capacity and fails with
    CapacityExceeded (store untouched) when the count is at or above it; after
    a successful fresh registration the count has grown by one and is below
    the capacity plus one, hence at most the capacity whenever the capacity is
    a whole number. *)
Theorem register_fresh_capacity s slug name email uuid token now event :
  find_event_by_slug s slug = Some event ->
  find_registration s (ev_id event) email = None ->
  let r := register s slug name email uuid token now in
  let count := inject_Z (count_active s (ev_id event)) in
  let after := inject_Z (count_active (snd r) (ev_id event)) in
  (name = EmptyString \/ email = EmptyString -> r = (Err MissingFields, s)) /\
  (name <> EmptyString -> email <> EmptyString ->
   ev_status event = "cancelled" \/ ev_status event = "draft" ->
   r = (Err EventUnavailable, s)) /\
  (name <> EmptyString -> email <> EmptyString ->
   ev_status event <> "cancelled" -> ev_status event <> "draft" ->
   (is_ok (fst r) = true <-> (count < ev_capacity event)%Q) /\
   ((ev_capacity event <= count)%Q -> r = (Err CapacityExceeded, s)) /\
   (is_ok (fst r) = true ->
    (exists reg, fst r = Ok reg /\ reg_reactivated reg = false
                 /\ find_attendee (snd r) (reg_id reg) <> None) /\
    (count_active (snd r) (ev_id event)
     = count_active s (ev_id event) + 1)%Z /\
    (after < ev_capacity event + 1)%Q /\
    ((exists n : Z, (ev_capacity event == inject_Z n)%Q) ->
     (after <= ev_capacity event)%Q))).
Proof.
  intros Hev Hnone r count after. subst r count after.
  split; [|split].
  - unfold register, truthy. intros [-> | ->]; simpl; [reflexivity|].
    now rewrite orb_true_r.
  - intros Hn He Hst. unfold register.
    rewrite (truthy_true _ Hn), (truthy_true _ He), Hev. simpl.
    destruct Hst as [-> | ->]; reflexivity.
  - intros Hn He Hc Hd.
    rewrite (register_available _ _ _ _ _ _ _ _ Hn He Hev Hc Hd), Hnone.
    unfold at_capacity.
    destruct (Qle_bool (ev_capacity event)
                (inject_Z (count_active s (ev_id event)))) eqn:E; simpl.
    + apply Qle_bool_iff in E. split; [|split].
      * split; [discriminate|]. intros Hlt. now apply Qlt_not_le in Hlt.
      * reflexivity.
      * discriminate.
    + assert (Hfree : (inject_Z (count_active s (ev_id event))
                       < ev_capacity event)%Q).
      { apply Qnot_le_lt. intros Hle. apply Qle_bool_iff in Hle. congruence. }
      split; [now split|].
      split; [intros Hle; now apply Qlt_not_le in Hfree|]. intros _.
      rewrite count_active_insert, is_active_new_attendee.
      split; [|split; [reflexivity|split]].
      * eexists; split; [reflexivity|]. split; [reflexivity|]. simpl.
        unfold find_attendee, with_attendees; simpl.
        rewrite find_append.
        destruct (find _ (attendees s)); [discriminate|]. simpl.
        now rewrite String.eqb_refl.
      * rewrite inject_Z_plus. now apply Qplus_lt_l.
      * intros (n & Hint). rewrite Hint in Hfree |- *.
        rewrite <- Zlt_Qlt in Hfree. rewrite <- Zle_Qle. lia.
Qed.

(** ** Reactivation of a cancelled registration *)

Lemma find_map_stable {A} (p : A -> bool) (f : A -> A) (l : list A) :
  (forall x, p (f x) = p x) ->
  find p (map f l) = option_map f (find p l).
Proof.
  intros Hp. induction l as [|x l IH]; simpl; [reflexivity|].
  rewrite Hp. now destruct (p x).
Qed.

Lemma find_some_holds {A} (p : A -> bool) (l : list A) (x : A) :
  find p l = Some x -> p x = true.
Proof. intros H. now apply find_some in H. Qed.

Lemma find_registration_update s event_id email id f :
  (forall a, att_event_id (f a) = att_event_id a) ->
  (forall a, att_email (f a) = att_email a) ->
  find_registration (with_attendees s (update_attendee id f (attendees s)))
    event_id email
  = option_map (fun a => if att_id a =? id then f a else a)
      (find_registration s event_id email).
Proof.
  intros Hev Hem. unfold find_registration, with_attendees, update_attendee.
  simpl. apply find_map_stable. intros a. unfold same_registration.
  destruct (att_id a =? id); [|reflexivity]. now rewrite Hev, Hem.
Qed.

Lemma update_attendee_others id f l a :
  In a l -> att_id a <> id -> In a (update_attendee id f l).
Proof.
  intros Hin Hid. unfold update_attendee. apply in_map_iff.
  exists a. split; [|assumption]. now rewrite (eqb_neq_false _ _ Hid).
Qed.

(** C2, as stated, fails twice.  On a draft event the cancelled record
    is not reactivated: the request is refused with EventUnavailable.  And on a
    published event a record that was checked in before it was cancelled keeps
    its [checked_in_at] through the reactivation, while [checked_in] is
    reset. *)
Lemma register_reactivation_departs :
  (find_registration draft_cancelled_store "e1" "ann@example.org" <> None /\
   register draft_cancelled_store "meetup" "Ann" "ann@example.org" "a9" "t9" 7
   = (Err EventUnavailable, draft_cancelled_store)) /\
  (let s := run gather_store ann_checked_in_then_cancelled in
   let r := register s "gather" "Ann" "ann@example.org" "a9" "t9" 7 in
   option_map att_cancelled (find_registration s "e2" "ann@example.org")
   = Some true /\
   is_ok (fst r) = true /\
   option_map att_checked_in (find_attendee (snd r) "a1") = Some false /\
   option_map att_checked_in_at (find_attendee (snd r) "a1")
   = Some (Some "2024-05-01T18:00:00.000Z")).
Proof. split; [split; [discriminate|reflexivity]|repeat split]. Qed.

(** C2 (amended): for an event whose status is neither cancelled nor draft
    and a non-empty name and email whose (event, email) record is cancelled,
    [register] reactivates that record: the stored record has [cancelled] and
    [checked_in] cleared, the new name, and a QR payload generated from the
    record id, the event id and the new name and email; its id, email and
    cancel token are kept; the response carries [reactivated = true]; every
    other attendee, the events and the waitlist are untouched.  No hypothesis
    on the capacity is needed: the count of non-cancelled attendees is never
    consulted. *)
Theorem register_reactivates s slug name email uuid token now event existing :
  name <> EmptyString -> email <> EmptyString ->
  find_event_by_slug s slug = Some event ->
  ev_status event <> "cancelled" -> ev_status event <> "draft" ->
  find_registration s (ev_id event) email = Some existing ->
  att_cancelled existing = true ->
  let qr := mkQr (att_id existing) (ev_id event) name email in
  let r := register s slug name email uuid token now in
  fst r = Ok (mkRegistration (att_id existing) name email qr event None true) /\
  (exists a,
     find_registration (snd r) (ev_id event) email = Some a /\
     att_id a = att_id existing /\
     att_cancelled a = false /\
     att_checked_in a = false /\
     att_name a = name /\
     att_qr_code a = qr /\
     att_email a = email /\
     att_cancel_token a = att_cancel_token existing) /\
  (forall a, In a (attendees s) -> att_id a <> att_id existing ->
             In a (attendees (snd r))) /\
  length (attendees (snd r)) = length (attendees s) /\
  events (snd r) = events s /\
  waitlist (snd r) = waitlist s.
Proof.
  intros Hn He Hev Hc Hd Hfound Hcan qr r. subst r.
  rewrite (register_available _ _ _ _ _ _ _ _ Hn He Hev Hc Hd), Hfound, Hcan.
  simpl. split; [reflexivity|]. split.
  - exists (reactivate name qr existing).
    rewrite find_registration_update by reflexivity.
    rewrite Hfound; simpl. rewrite String.eqb_refl.
    repeat split.
    apply find_some_holds in Hfound. unfold same_registration in Hfound.
    apply andb_prop in Hfound as [_ Hem]. now apply String.eqb_eq in Hem.
  - split; [|split; [|split; reflexivity]].
    + intros a Hin Hid. now apply update_attendee_others.
    + unfold update_attendee. apply length_map.
Qed.

(** The same at a full event: Ann's cancelled seat was taken by Bob, and her
    reactivation still goes through. *)
Lemma register_reactivates_witness :
  let s := run gather_store ann_cancelled_bob_registered in
  let r := register s "gather" "Ann B." "ann@example.org" "a9" "t9" 7 in
  (ev_capacity gather_event <= inject_Z (count_active s "e2"))%Q /\
  fst r = Ok (mkRegistration "a1" "Ann B." "ann@example.org"
                (mkQr "a1" "e2" "Ann B." "ann@example.org") gather_event
                None true) /\
  (ev_capacity gather_event < inject_Z (count_active (snd r) "e2"))%Q.
Proof.
  split; [vm_compute; discriminate|].
  split; [|reflexivity].
  apply (register_reactivates
           (run gather_store ann_cancelled_bob_registered)
           "gather" "Ann B." "ann@example.org" "a9" "t9" 7 gather_event
           (mkAttendee "a1" "e2" "Ann" "ann@example.org"
              (mkQr "a1" "e2" "Ann" "ann@example.org") (Some "t1")
              false None true 1));
    try discriminate; reflexivity.
Defined.

Lemma register_fresh_capacity_witness :
  let r := register gather_store "gather" "Ann" "ann@example.org" "a1" "t1" 1 in
  is_ok (fst r) = true /\
  (inject_Z (count_active (snd r) "e2") <= ev_capacity gather_event)%Q.
Proof.
  destruct (register_fresh_capacity gather_store "gather" "Ann"
              "ann@example.org" "a1" "t1" 1 gather_event eq_refl eq_refl)
    as (_ & _ & H).
  destruct H as (Hiff & _ & Hafter); try discriminate.
  assert (Hok : is_ok (fst (register gather_store "gather" "Ann"
                              "ann@example.org" "a1" "t1" 1)) = true)
    by reflexivity.
  split; [exact Hok|].
  destruct (Hafter Hok) as (_ & _ & _ & Hwhole).
  apply Hwhole. exists 1%Z. reflexivity.
Defined.

(** ** The check-in invariant *)

(** C3: the ledger operations do not keep [checkin_consistent].  Ann
    registers, is checked in, cancels and registers again: the reactivation
    clears [checked_in] and leaves [checked_in_at] standing, so her record ends
    with a check-in time and [checked_in = false]. *)
Theorem reactivation_keeps_checked_in_at :
  let s := run gather_store
             (ann_checked_in_then_cancelled ++
              [Register "gather" "Ann" "ann@example.org" "a9" "t9" 7])%list in
  exists a,
    find_attendee s "a1" = Some a /\
    att_checked_in a = false /\
    att_checked_in_at a = Some "2024-05-01T18:00:00.000Z" /\
    ~ checkin_consistent a.
Proof.
  eexists. split; [reflexivity|]. split; [reflexivity|]. split; [reflexivity|].
  intros [H _]. simpl in H. discriminate H. discriminate.
Qed.

Lemma consistent_update id f l :
  (forall a, checkin_consistent a -> checkin_consistent (f a)) ->
  Forall checkin_consistent l ->
  Forall checkin_consistent (update_attendee id f l).
Proof.
  intros Hf Hl. unfold update_attendee. apply Forall_map.
  eapply Forall_impl; [|exact Hl]. intros a Ha.
  destruct (att_id a =? id); auto.
Qed.

Lemma consistent_set_checked_in now a : checkin_consistent (set_checked_in now a).
Proof. unfold checkin_consistent; simpl. split; [reflexivity|discriminate]. Qed.

Lemma consistent_set_cancelled a :
  checkin_consistent a -> checkin_consistent (set_cancelled a).
Proof. unfold checkin_consistent; simpl. tauto. Qed.

(** Every operation other than a reactivating registration keeps the
    invariant: the departure above is confined to the reactivation update. *)
Lemma consistent_cancel s id tok :
  Forall checkin_consistent (attendees s) ->
  Forall checkin_consistent (attendees (snd (cancel s id tok))).
Proof.
  intros H. unfold cancel. destruct (find_attendee s id); [|exact H].
  destruct (token_differs _ _); [exact H|]. simpl.
  apply consistent_update; [apply consistent_set_cancelled|exact H].
Qed.

Lemma consistent_checkIn s id now :
  Forall checkin_consistent (attendees s) ->
  Forall checkin_consistent (attendees (snd (checkIn s id now))).
Proof.
  intros H. unfold checkIn. destruct (find_attendee s id); [|exact H].
  destruct (att_checked_in _); [exact H|]. simpl.
  apply consistent_update; [|exact H]. intros; apply consistent_set_checked_in.
Qed.

Lemma consistent_checkInByQrPayload s q now :
  Forall checkin_consistent (attendees s) ->
  Forall checkin_consistent (attendees (snd (checkInByQrPayload s q now))).
Proof.
  intros H. unfold checkInByQrPayload.
  destruct q as [| |[id|]]; try exact H.
  destruct (negb (truthy id)); [exact H|].
  destruct (join_event _ _ _) as [[a t]|]; [|exact H].
  destruct (att_cancelled a); [exact H|]. simpl.
  destruct (att_checked_in a); [exact H|]. simpl.
  apply consistent_update; [|exact H]. intros; apply consistent_set_checked_in.
Qed.

Lemma consistent_register_fresh s slug name email uuid token now event :
  find_event_by_slug s slug = Some event ->
  find_registration s (ev_id event) email = None ->
  Forall checkin_consistent (attendees s) ->
  Forall checkin_consistent
    (attendees (snd (register s slug name email uuid token now))).
Proof.
  intros Hev Hnone H. unfold register.
  destruct (_ || _); [exact H|]. rewrite Hev.
  destruct (_ =? "cancelled"); [exact H|].
  destruct (_ =? "draft"); [exact H|]. rewrite Hnone.
  destruct (at_capacity _ _); [exact H|]. simpl.
  apply Forall_app. split; [exact H|]. constructor; [|constructor].
  unfold checkin_consistent; simpl. split; [congruence|discriminate].
Qed.

(** ** Registrations that stand across ledger operations *)

Lemma step_events s o : events (step s o) = events s.
Proof.
  destruct o as [slug name email uuid token now|id tok
                 |slug name email uuid now|id now|q now]; simpl.
  - unfold register. destruct (_ || _); [reflexivity|].
    destruct (find_event_by_slug s slug); [|reflexivity].
    destruct (_ =? "cancelled"); [reflexivity|].
    destruct (_ =? "draft"); [reflexivity|].
    destruct (find_registration _ _ _).
    + now destruct (negb _).
    + now destruct (at_capacity _ _).
  - unfold cancel. destruct (find_attendee s id); [|reflexivity].
    now destruct (token_differs _ _).
  - unfold joinWaitlist. destruct (_ || _); [reflexivity|].
    destruct (find_event_by_slug s slug); [|reflexivity].
    now destruct (find_waitlisted _ _ _).
  - unfold checkIn. destruct (find_attendee s id); [|reflexivity].
    now destruct (att_checked_in _).
  - unfold checkInByQrPayload. destruct q as [| |[id|]]; try reflexivity.
    destruct (negb _); [reflexivity|].
    destruct (join_event _ _ _) as [[a t]|]; [|reflexivity].
    destruct (att_cancelled a); [reflexivity|]. simpl.
    now destruct (att_checked_in a).
Qed.

Lemma run_events s ops : events (run s ops) = events s.
Proof.
  revert s. induction ops as [|o ops IH]; intros s; [reflexivity|].
  change (events (run (step s o) ops) = events s).
  now rewrite IH, step_events.
Qed.

Section Registered.
Variables event_id email id : string.

(** An update that keeps the key columns and never sets [cancelled]. *)
Lemma registered_update id' f l :
  (forall a, att_event_id (f a) = att_event_id a) ->
  (forall a, att_email (f a) = att_email a) ->
  (forall a, att_id (f a) = att_id a) ->
  (forall a, att_cancelled a = false -> att_cancelled (f a) = false) ->
  registered_in l event_id email id ->
  registered_in (update_attendee id' f l) event_id email id.
Proof.
  intros Hev Hem Hid Hcan (a & Hfind & Ha & Hc).
  unfold registered_in, update_attendee.
  rewrite find_map_stable, Hfind; simpl.
  - destruct (att_id a =? id').
    + exists (f a). now rewrite Hid, (Hcan _ Hc).
    + now exists a.
  - intros x. unfold same_registration.
    destruct (att_id x =? id'); [|reflexivity]. now rewrite Hev, Hem.
Qed.

(** An update of another attendee. *)
Lemma registered_update_other id' f l :
  (forall a, att_event_id (f a) = att_event_id a) ->
  (forall a, att_email (f a) = att_email a) ->
  id' <> id ->
  registered_in l event_id email id ->
  registered_in (update_attendee id' f l) event_id email id.
Proof.
  intros Hev Hem Hne (a & Hfind & Ha & Hc).
  unfold registered_in, update_attendee.
  rewrite find_map_stable, Hfind; simpl.
  - exists a. rewrite Ha, (eqb_neq_false id id') by congruence. auto.
  - intros x. unfold same_registration.
    destruct (att_id x =? id'); [|reflexivity]. now rewrite Hev, Hem.
Qed.

Lemma registered_insert l a :
  registered_in l event_id email id ->
  registered_in (l ++ [a]) event_id email id.
Proof.
  intros (b & Hfind & Hb). exists b.
  now rewrite find_append, Hfind.
Qed.

Lemma step_registered s o :
  cancels id o = false ->
  registered_in (attendees s) event_id email id ->
  registered_in (attendees (step s o)) event_id email id.
Proof.
  intros Hno H.
  destruct o as [slug name' email' uuid token now|id' tok
                 |slug name' email' uuid now|id' now|q now]; simpl.
  - unfold register. destruct (_ || _); [exact H|].
    destruct (find_event_by_slug s slug); [|exact H].
    destruct (_ =? "cancelled"); [exact H|].
    destruct (_ =? "draft"); [exact H|].
    destruct (find_registration _ _ _).
    + destruct (negb _); [exact H|]. simpl.
      now apply registered_update.
    + destruct (at_capacity _ _); [exact H|]. simpl.
      now apply registered_insert.
  - unfold cancel. destruct (find_attendee s id'); [|exact H].
    destruct (token_differs _ _); [exact H|]. simpl.
    apply registered_update_other; auto.
    simpl in Hno. now apply String.eqb_neq.
  - unfold joinWaitlist. destruct (_ || _); [exact H|].
    destruct (find_event_by_slug s slug); [|exact H].
    now destruct (find_waitlisted _ _ _).
  - unfold checkIn. destruct (find_attendee s id'); [|exact H].
    destruct (att_checked_in _); [exact H|]. simpl.
    now apply registered_update.
  - unfold checkInByQrPayload. destruct q as [| |[qid|]]; try exact H.
    destruct (negb _); [exact H|].
    destruct (join_event _ _ _) as [[a t]|]; [|exact H].
    destruct (att_cancelled a); [exact H|]. simpl.
    destruct (att_checked_in a); [exact H|]. simpl.
    now apply registered_update.
Qed.

Lemma run_registered ops : forall s,
  Forall (fun o => cancels id o = false) ops ->
  registered_in (attendees s) event_id email id ->
  registered_in (attendees (run s ops)) event_id email id.
Proof.
  induction ops as [|o ops IH]; intros s Hops H; [exact H|].
  change (registered_in (attendees (run (step s o) ops)) event_id email id).
  inversion Hops; subst. apply IH; [assumption|].
  now apply step_registered.
Qed.
End Registered.



(** ** Check-in *)

Lemma find_attendee_update s id f attendee :
  (forall a, att_id (f a) = att_id a) ->
  find_attendee s id = Some attendee ->
  find_attendee (with_attendees s (update_attendee id f (attendees s))) id
  = Some (f attendee).
Proof.
  intros Hid Hfind. unfold find_attendee, with_attendees, update_attendee in *.
  simpl. rewrite find_map_stable, Hfind; simpl.
  - apply find_some_holds in Hfind. now rewrite Hfind.
  - intros x. destruct (att_id x =? id) eqn:E; [|exact E]. now rewrite Hid.
Qed.

Lemma checkIn_already s id now attendee :
  find_attendee s id = Some attendee ->
  att_checked_in attendee = true ->
  checkIn s id now = (Ok (AlreadyCheckedIn, attendee), s).
Proof. intros Hfind Hin. unfold checkIn. now rewrite Hfind, Hin. Qed.

Lemma checkIn_first s id now attendee :
  find_attendee s id = Some attendee ->
  att_checked_in attendee = false ->
  checkIn s id now
  = (Ok (CheckedInSuccessfully, set_checked_in now attendee),
     with_attendees s (update_attendee id (set_checked_in now) (attendees s))).
Proof. intros Hfind Hin. unfold checkIn. now rewrite Hfind, Hin. Qed.

(** C5: [checkIn] on an existing attendee.  If the attendee is already
    checked in, the answer is 'Already checked in' with the stored record and
    the store is returned as it was.  Otherwise the answer and the stored
    record carry [checked_in = true] and [checked_in_at = now], all other
    columns kept.  In either case a second [checkIn] on the resulting store
    answers 'Already checked in' with a record whose [checked_in] is true and
    leaves that store, hence [checked_in_at], as it is. *)
Theorem checkIn_idempotent s id now now' attendee :
  find_attendee s id = Some attendee ->
  let r := checkIn s id now in
  (att_checked_in attendee = true ->
   r = (Ok (AlreadyCheckedIn, attendee), s)) /\
  (att_checked_in attendee = false ->
   fst r = Ok (CheckedInSuccessfully, set_checked_in now attendee) /\
   exists a,
     find_attendee (snd r) id = Some a /\
     att_checked_in a = true /\
     att_checked_in_at a = Some now /\
     att_name a = att_name attendee /\
     att_email a = att_email attendee /\
     att_event_id a = att_event_id attendee /\
     att_cancelled a = att_cancelled attendee /\
     a = set_checked_in now attendee) /\
  (exists a1,
     find_attendee (snd r) id = Some a1 /\
     att_checked_in a1 = true /\
     (exists m, fst r = Ok (m, a1)) /\
     checkIn (snd r) id now' = (Ok (AlreadyCheckedIn, a1), snd r)).
Proof.
  intros Hfind r. subst r.
  destruct (att_checked_in attendee) eqn:Hin.
  - rewrite (checkIn_already _ _ now _ Hfind Hin); simpl.
    split; [reflexivity|]. split; [discriminate|].
    exists attendee. split; [assumption|]. split; [assumption|].
    split; [now exists AlreadyCheckedIn|].
    now apply checkIn_already.
  - rewrite (checkIn_first _ _ now _ Hfind Hin); simpl.
    split; [discriminate|].
    pose proof (find_attendee_update s id (set_checked_in now) attendee
                  (fun _ => eq_refl) Hfind) as Hupd.
    split.
    + intros _. split; [reflexivity|].
      exists (set_checked_in now attendee). now rewrite Hupd.
    + exists (set_checked_in now attendee). split; [assumption|].
      split; [reflexivity|]. split; [now exists CheckedInSuccessfully|].
      now apply checkIn_already.
Qed.

Lemma checkIn_idempotent_witness :
  let s := snd (register gather_store "gather" "Ann" "ann@example.org"
                  "a1" "t1" 1) in
  let r := checkIn s "a1" "2024-05-01T18:00:00.000Z" in
  exists a1,
    find_attendee (snd r) "a1" = Some a1 /\
    att_checked_in a1 = true /\
    (exists m, fst r = Ok (m, a1)) /\
    checkIn (snd r) "a1" "2024-05-01T18:05:00.000Z"
    = (Ok (AlreadyCheckedIn, a1), snd r).
Proof.
  apply (checkIn_idempotent
           (snd (register gather_store "gather" "Ann" "ann@example.org"
                   "a1" "t1" 1))
           "a1" "2024-05-01T18:00:00.000Z" "2024-05-01T18:05:00.000Z"
           (new_attendee "a1" "e2" "Ann" "ann@example.org"
              (mkQr "a1" "e2" "Ann" "ann@example.org") "t1" 1)).
  reflexivity.
Defined.

(** The joined lookup of the QR route finds the attendee [find_attendee]
    finds, as soon as that attendee's event exists. *)
Lemma join_event_found s id attendee event :
  find_attendee s id = Some attendee ->
  find_event_by_id s (att_event_id attendee) = Some event ->
  join_event (events s) (attendees s) id = Some (attendee, ev_title event).
Proof.
  unfold find_attendee, find_event_by_id.
  induction (attendees s) as [|a l IH]; simpl; [discriminate|].
  destruct (att_id a =? id).
  - intros H; inversion H; subst. intros Hev. now rewrite Hev.
  - exact IH.
Qed.

Lemma qr_rejects_cancelled s id now attendee event :
  id <> EmptyString ->
  find_attendee s id = Some attendee ->
  find_event_by_id s (att_event_id attendee) = Some event ->
  att_cancelled attendee = true ->
  checkInByQrPayload s (QrObject (Some id)) now = (Err RsvpCancelled, s).
Proof.
  intros Hid Hfind Hev Hcan. unfold checkInByQrPayload.
  rewrite (truthy_true _ Hid); simpl.
  now rewrite (join_event_found _ _ _ _ Hfind Hev), Hcan.
Qed.

(** C6: a QR payload that carries an attendee id (a non-empty string)
    resolving, through the join with the attendee's event, to an attendee whose
    [cancelled] flag is set is refused with RsvpCancelled; the store is
    returned as it was, so the record, and in particular [checked_in] and
    [checked_in_at], is the one stored before. *)
Theorem checkInByQrPayload_cancelled s id now attendee event :
  id <> EmptyString ->
  find_attendee s id = Some attendee ->
  find_event_by_id s (att_event_id attendee) = Some event ->
  att_cancelled attendee = true ->
  let r := checkInByQrPayload s (QrObject (Some id)) now in
  fst r = Err RsvpCancelled /\
  snd r = s /\
  find_attendee (snd r) id = Some attendee /\
  option_map att_checked_in (find_attendee (snd r) id)
  = Some (att_checked_in attendee) /\
  option_map att_checked_in_at (find_attendee (snd r) id)
  = Some (att_checked_in_at attendee).
Proof.
  intros Hid Hfind Hev Hcan r. subst r.
  rewrite (qr_rejects_cancelled _ _ _ _ _ Hid Hfind Hev Hcan); simpl.
  rewrite Hfind. repeat split.
Qed.

Lemma checkInByQrPayload_cancelled_witness :
  let s := run gather_store ann_checked_in_then_cancelled in
  let r := checkInByQrPayload s (QrObject (Some "a1"))
             "2024-05-01T19:00:00.000Z" in
  fst r = Err RsvpCancelled /\ snd r = s.
Proof.
  destruct (checkInByQrPayload_cancelled
              (run gather_store ann_checked_in_then_cancelled)
              "a1" "2024-05-01T19:00:00.000Z"
              (mkAttendee "a1" "e2" "Ann" "ann@example.org"
                 (mkQr "a1" "e2" "Ann" "ann@example.org") (Some "t1")
                 true (Some "2024-05-01T18:00:00.000Z") true 1)
              gather_event)
    as (H1 & H2 & _); try discriminate; try reflexivity.
  now split.
Defined.

(** C7: the manual route never reads [cancelled].  For an attendee that is
    cancelled and not checked in, [checkIn] answers 'Checked in successfully'
    and the stored record becomes checked in while staying cancelled; the QR
    route, on the same store and attendee, refuses with RsvpCancelled. *)
Theorem checkIn_ignores_cancelled s id now attendee :
  find_attendee s id = Some attendee ->
  att_cancelled attendee = true ->
  att_checked_in attendee = false ->
  let r := checkIn s id now in
  fst r = Ok (CheckedInSuccessfully, set_checked_in now attendee) /\
  (exists a,
     find_attendee (snd r) id = Some a /\
     att_checked_in a = true /\
     att_checked_in_at a = Some now /\
     att_cancelled a = true) /\
  (forall event,
     id <> EmptyString ->
     find_event_by_id s (att_event_id attendee) = Some event ->
     checkInByQrPayload s (QrObject (Some id)) now = (Err RsvpCancelled, s)).
Proof.
  intros Hfind Hcan Hin r. subst r.
  rewrite (checkIn_first _ _ now _ Hfind Hin); simpl.
  split; [reflexivity|]. split.
  - exists (set_checked_in now attendee).
    rewrite (find_attendee_update s id (set_checked_in now) attendee
               (fun _ => eq_refl) Hfind).
    now repeat split.
  - intros event Hid Hev. eapply qr_rejects_cancelled; eassumption.
Qed.

Lemma checkIn_ignores_cancelled_witness :
  let s := run gather_store
             [ Register "gather" "Ann" "ann@example.org" "a1" "t1" 1;
               Cancel "a1" (TokString "t1") ] in
  let r := checkIn s "a1" "2024-05-01T18:00:00.000Z" in
  exists a,
    find_attendee (snd r) "a1" = Some a /\
    att_checked_in a = true /\
    att_checked_in_at a = Some "2024-05-01T18:00:00.000Z" /\
    att_cancelled a = true.
Proof.
  apply (checkIn_ignores_cancelled
           (run gather_store
              [ Register "gather" "Ann" "ann@example.org" "a1" "t1" 1;
                Cancel "a1" (TokString "t1") ])
           "a1" "2024-05-01T18:00:00.000Z"
           (mkAttendee "a1" "e2" "Ann" "ann@example.org"
              (mkQr "a1" "e2" "Ann" "ann@example.org") (Some "t1")
              false None true 1));
    reflexivity.
Defined.

(** ** Waitlist promotion *)

Lemma set_notified_fixed w : wl_notified w = true -> set_notified w = w.
Proof. destruct w; simpl; intros ->; reflexivity. Qed.

Lemma set_cancelled_fixed a : att_cancelled a = true -> set_cancelled a = a.
Proof. destruct a; simpl; intros ->; reflexivity. Qed.

Lemma oldest_spec l :
  l <> [] ->
  exists w, oldest l = Some w /\ In w l /\
            forall x, In x l -> wl_created_at w <= wl_created_at x.
Proof.
  induction l as [|a l IH]; [congruence|]. intros _. simpl.
  destruct l as [|b l'].
  - exists a. simpl. split; [reflexivity|]. split; [now left|].
    intros x [->|[]]. lia.
  - destruct IH as (w & Hw & Hin & Hmin); [discriminate|].
    rewrite Hw.
    destruct (Nat.leb_spec (wl_created_at a) (wl_created_at w)).
    + exists a. split; [reflexivity|]. split; [now left|].
      intros x [->|Hx]; [lia|]. specialize (Hmin x Hx). lia.
    + exists w. split; [reflexivity|]. split; [now right|].
      intros x [->|Hx]; [lia|]. now apply Hmin.
Qed.

Lemma oldest_none l : oldest l = None -> l = [].
Proof.
  destruct l as [|a l]; [reflexivity|]. simpl.
  destruct (oldest l); [destruct (_ <=? _)%nat|]; discriminate.
Qed.

Lemma next_in_line_pending l event_id w :
  next_in_line l event_id = Some w ->
  In w l /\ wl_event_id w = event_id /\ wl_notified w = false /\
  forall x, In x l -> wl_event_id x = event_id -> wl_notified x = false ->
            wl_created_at w <= wl_created_at x.
Proof.
  unfold next_in_line. intros H.
  destruct (oldest_spec (filter (is_pending event_id) l))
    as (w' & Hw' & Hin & Hmin).
  { intros E. rewrite E in H. discriminate. }
  rewrite H in Hw'. inversion Hw'; subst w'; clear Hw'.
  apply filter_In in Hin as [Hin Hp]. unfold is_pending in Hp.
  apply andb_prop in Hp as [He Hn].
  apply String.eqb_eq in He. apply negb_true_iff in Hn.
  repeat split; try assumption.
  intros x Hx Hxe Hxn. apply Hmin. apply filter_In. split; [assumption|].
  unfold is_pending. now rewrite Hxe, String.eqb_refl, Hxn.
Qed.

Lemma next_in_line_exists l event_id x :
  In x l -> wl_event_id x = event_id -> wl_notified x = false ->
  exists w, next_in_line l event_id = Some w.
Proof.
  intros Hx He Hn. unfold next_in_line.
  destruct (oldest _) as [w|] eqn:E; [now exists w|].
  apply oldest_none in E.
  assert (Hin : In x (filter (is_pending event_id) l)).
  { apply filter_In. split; [assumption|].
    unfold is_pending. now rewrite He, String.eqb_refl, Hn. }
  rewrite E in Hin. destruct Hin.
Qed.

Lemma mark_notified_absent id l :
  ~ In id (map wl_id l) -> mark_notified id l = l.
Proof.
  induction l as [|a l IH]; simpl; [reflexivity|]. intros H.
  rewrite IH by tauto.
  rewrite eqb_neq_false; [reflexivity|]. intros E. apply H. now left.
Qed.

(** With unique ids the update touches the selected row and nothing else. *)
Lemma mark_notified_split l w :
  NoDup (map wl_id l) -> In w l ->
  exists l1 l2, l = (l1 ++ w :: l2)%list /\
                mark_notified (wl_id w) l = (l1 ++ set_notified w :: l2)%list.
Proof.
  intros Hnd Hin. apply in_split in Hin as (l1 & l2 & ->).
  exists l1, l2. split; [reflexivity|].
  rewrite map_app in Hnd. simpl in Hnd.
  pose proof (NoDup_remove_2 _ _ _ Hnd) as Hout.
  unfold mark_notified. rewrite map_app. simpl. rewrite String.eqb_refl.
  fold (mark_notified (wl_id w) l1). fold (mark_notified (wl_id w) l2).
  rewrite !mark_notified_absent; [reflexivity| |];
    intros H; apply Hout, in_or_app; tauto.
Qed.

Lemma mark_notified_ids id l : map wl_id (mark_notified id l) = map wl_id l.
Proof.
  unfold mark_notified. rewrite map_map. apply map_ext.
  intros w. now destruct (wl_id w =? id).
Qed.

Lemma promote_ids l event_id : map wl_id (promote l event_id) = map wl_id l.
Proof.
  unfold promote. destruct (next_in_line l event_id); [|reflexivity].
  apply mark_notified_ids.
Qed.

Lemma promote_keeps_notified l event_id x :
  In x l -> wl_notified x = true -> In x (promote l event_id).
Proof.
  intros Hin Hn. unfold promote.
  destruct (next_in_line l event_id) as [w|]; [|assumption].
  unfold mark_notified. apply in_map_iff. exists x. split; [|assumption].
  destruct (wl_id x =? wl_id w); [now apply set_notified_fixed|reflexivity].
Qed.

Lemma unique_by_id l (a b : WaitlistEntry) :
  NoDup (map wl_id l) -> In a l -> In b l -> wl_id a = wl_id b -> a = b.
Proof.
  induction l as [|c l IH]; simpl; [tauto|].
  intros Hnd [->|Ha] [->|Hb] E; try reflexivity.
  - inversion Hnd; subst. exfalso. apply H1. rewrite E. now apply in_map.
  - inversion Hnd; subst. exfalso. apply H1. rewrite <- E. now apply in_map.
  - inversion Hnd; subst. now apply IH.
Qed.

Lemma update_attendee_ids id f l :
  (forall a, att_id (f a) = att_id a) ->
  map att_id (update_attendee id f l) = map att_id l.
Proof.
  intros Hid. unfold update_attendee. rewrite map_map. apply map_ext.
  intros a. destruct (att_id a =? id); [apply Hid|reflexivity].
Qed.

Lemma NoDup_snoc {A} (l : list A) (x : A) :
  NoDup l -> ~ In x l -> NoDup (l ++ [x]).
Proof.
  intros Hl Hx. apply NoDup_app; [assumption|repeat constructor; tauto|].
  intros y Hy [<-|[]]. contradiction.
Qed.

(** Unique ids are an invariant of the ledger as long as generated ids are
    fresh. *)
Lemma step_unique_ids s o :
  fresh_for s o -> unique_ids s -> unique_ids (step s o).
Proof.
  intros Hfresh [Ha Hw]. unfold unique_ids.
  destruct o as [slug name email uuid token now|id tok
                 |slug name email uuid now|id now|q now]; simpl in *.
  - unfold register. destruct (_ || _); [now split|].
    destruct (find_event_by_slug s slug); [|now split].
    destruct (_ =? "cancelled"); [now split|].
    destruct (_ =? "draft"); [now split|].
    destruct (find_registration _ _ _).
    + destruct (negb _); [now split|]. simpl.
      now rewrite update_attendee_ids.
    + destruct (at_capacity _ _); [now split|]. simpl.
      split; [|assumption]. rewrite map_app. now apply NoDup_snoc.
  - unfold cancel. destruct (find_attendee s id); [|now split].
    destruct (token_differs _ _); [now split|]. simpl.
    now rewrite update_attendee_ids, promote_ids.
  - unfold joinWaitlist. destruct (_ || _); [now split|].
    destruct (find_event_by_slug s slug); [|now split].
    destruct (find_waitlisted _ _ _); [now split|]. simpl.
    split; [assumption|]. rewrite map_app. now apply NoDup_snoc.
  - unfold checkIn. destruct (find_attendee s id); [|now split].
    destruct (att_checked_in _); [now split|]. simpl.
    now rewrite update_attendee_ids.
  - unfold checkInByQrPayload. destruct q as [| |[qid|]]; try now split.
    destruct (negb _); [now split|].
    destruct (join_event _ _ _) as [[a t]|]; [|now split].
    destruct (att_cancelled a); [now split|]. simpl.
    destruct (att_checked_in a); [now split|]. simpl.
    now rewrite update_attendee_ids.
Qed.

Lemma cancel_accepted s id tok attendee :
  find_attendee s id = Some attendee ->
  token_differs (att_cancel_token attendee) tok = false ->
  cancel s id tok
  = (Ok tt,
     mkStore (events s) (update_attendee id set_cancelled (attendees s))
       (promote (waitlist s) (att_event_id attendee))).
Proof. intros Hfind Htok. unfold cancel. now rewrite Hfind, Htok. Qed.

(** Cancellation requests leave the set of waitlist rows and every notified
    row in place. *)
Lemma cancel_waitlist_ids s id tok :
  map wl_id (waitlist (snd (cancel s id tok))) = map wl_id (waitlist s).
Proof.
  unfold cancel. destruct (find_attendee s id); [|reflexivity].
  destruct (token_differs _ _); [reflexivity|]. simpl. apply promote_ids.
Qed.

Lemma cancel_keeps_notified s id tok x :
  In x (waitlist s) -> wl_notified x = true ->
  In x (waitlist (snd (cancel s id tok))).
Proof.
  intros Hin Hn. unfold cancel. destruct (find_attendee s id); [|assumption].
  destruct (token_differs _ _); [assumption|]. simpl.
  now apply promote_keeps_notified.
Qed.

Lemma cancels_keep_waitlist (reqs : list (string * ReqToken)) : forall s,
  let s' := run s (map (fun q => Cancel (fst q) (snd q)) reqs) in
  map wl_id (waitlist s') = map wl_id (waitlist s) /\
  forall x, In x (waitlist s) -> wl_notified x = true -> In x (waitlist s').
Proof.
  induction reqs as [|[id tok] reqs IH]; intros s; [now split|].
  simpl map.
  change (run s (Cancel id tok :: ?l)) with (run (snd (cancel s id tok)) l).
  destruct (IH (snd (cancel s id tok))) as [Hids Hkeep]. simpl. split.
  - now rewrite Hids, cancel_waitlist_ids.
  - intros x Hin Hn. apply Hkeep; [|assumption].
    now apply cancel_keeps_notified.
Qed.

(** C8: a successful [cancel] on an event whose waitlist holds a pending
    entry, in a store whose waitlist ids are unique, turns exactly one entry
    from [notified = false] to [notified = true]: the waitlist before and
    after differ in that one position only.  The entry belongs to the
    attendee's event and no pending entry of the event has an earlier
    [created_at].  The attendee table keeps its rows, the waitlist keeps its
    rows; and after any further cancellation requests the notified entry is
    still there, notified, and is not the one the next promotion selects. *)
Theorem cancel_promotes_oldest s id tok attendee :
  NoDup (map wl_id (waitlist s)) ->
  find_attendee s id = Some attendee ->
  token_differs (att_cancel_token attendee) tok = false ->
  (exists x, In x (waitlist s) /\ wl_event_id x = att_event_id attendee
             /\ wl_notified x = false) ->
  let r := cancel s id tok in
  fst r = Ok tt /\
  exists l1 w l2,
    waitlist s = (l1 ++ w :: l2)%list /\
    waitlist (snd r) = (l1 ++ set_notified w :: l2)%list /\
    wl_event_id w = att_event_id attendee /\
    wl_notified w = false /\
    wl_notified (set_notified w) = true /\
    (forall x, In x (waitlist s) ->
               wl_event_id x = att_event_id attendee ->
               wl_notified x = false ->
               wl_created_at w <= wl_created_at x) /\
    map att_id (attendees (snd r)) = map att_id (attendees s) /\
    map wl_id (waitlist (snd r)) = map wl_id (waitlist s) /\
    (forall reqs event_id w',
       let s' := run (snd r) (map (fun q => Cancel (fst q) (snd q)) reqs) in
       In (set_notified w) (waitlist s') /\
       (next_in_line (waitlist s') event_id = Some w' ->
        wl_id w' <> wl_id w)).
Proof.
  intros Hnd Hfind Htok (x & Hx & Hxe & Hxn) r. subst r.
  rewrite (cancel_accepted _ _ _ _ Hfind Htok); simpl.
  split; [reflexivity|].
  destruct (next_in_line_exists _ _ _ Hx Hxe Hxn) as (w & Hw).
  destruct (next_in_line_pending _ _ _ Hw) as (Hin & He & Hn & Hmin).
  destruct (mark_notified_split _ _ Hnd Hin) as (l1 & l2 & Hl & Hmark).
  assert (Hprom : promote (waitlist s) (att_event_id attendee)
                  = (l1 ++ set_notified w :: l2)%list).
  { unfold promote. now rewrite Hw. }
  exists l1, w, l2. rewrite Hprom.
  split; [assumption|]. split; [reflexivity|]. split; [assumption|].
  split; [assumption|]. split; [reflexivity|]. split; [assumption|].
  split.
  { unfold update_attendee. rewrite map_map. apply map_ext.
    intros a. now destruct (att_id a =? id). }
  assert (Hids : map wl_id (l1 ++ set_notified w :: l2)
                 = map wl_id (waitlist s)).
  { rewrite Hl, !map_app. reflexivity. }
  split; [assumption|].
  intros reqs event_id w'.
  set (s1 := mkStore (events s)
               (update_attendee id set_cancelled (attendees s))
               (l1 ++ set_notified w :: l2)%list).
  destruct (cancels_keep_waitlist reqs s1) as [Hids' Hkeep].
  assert (Hthere : In (set_notified w)
                     (waitlist (run s1 (map (fun q => Cancel (fst q) (snd q))
                                          reqs)))).
  { apply Hkeep; [|reflexivity]. simpl. apply in_or_app. right. now left. }
  split; [assumption|].
  intros Hsel Eid.
  destruct (next_in_line_pending _ _ _ Hsel) as (Hin' & _ & Hn' & _).
  assert (E : w' = set_notified w).
  { eapply unique_by_id; [|exact Hin'|exact Hthere|exact Eid].
    rewrite Hids'. simpl. rewrite Hids. assumption. }
  rewrite E in Hn'. discriminate.
Qed.

Lemma cancel_promotes_oldest_witness :
  let s := run gather_store ann_registered_two_waiting in
  let r := cancel s "a1" (TokString "t1") in
  fst r = Ok tt /\
  exists l1 w l2,
    waitlist s = (l1 ++ w :: l2)%list /\
    waitlist (snd r) = (l1 ++ set_notified w :: l2)%list /\
    wl_event_id w = "e2" /\
    wl_notified w = false.
Proof.
  destruct (cancel_promotes_oldest
              (run gather_store ann_registered_two_waiting)
              "a1" (TokString "t1")
              (new_attendee "a1" "e2" "Ann" "ann@example.org"
                 (mkQr "a1" "e2" "Ann" "ann@example.org") "t1" 1))
    as (Hok & l1 & w & l2 & H1 & H2 & H3 & H4 & _).
  - repeat constructor; simpl; intuition discriminate.
  - reflexivity.
  - reflexivity.
  - exists (new_waitlist_entry "w2" "e2" "Cy" "cy@example.org" 5).
    split; [right; left; reflexivity|]. split; reflexivity.
  - split; [exact Hok|]. exists l1, w, l2. auto.
Defined.

(** ** Repeated cancellation *)

Lemma update_attendee_absent id f l :
  ~ In id (map att_id l) -> update_attendee id f l = l.
Proof.
  induction l as [|a l IH]; simpl; [reflexivity|]. intros H.
  rewrite IH by tauto.
  rewrite eqb_neq_false; [reflexivity|]. intros E. apply H. now left.
Qed.

Lemma update_attendee_fixed id f l a :
  NoDup (map att_id l) ->
  find (fun x => att_id x =? id) l = Some a ->
  f a = a ->
  update_attendee id f l = l.
Proof.
  intros Hnd Hfind Hf. induction l as [|b l IH]; [reflexivity|].
  simpl in *. inversion Hnd; subst.
  destruct (att_id b =? id) eqn:E.
  - inversion Hfind; subst b. rewrite Hf. f_equal.
    apply update_attendee_absent. apply String.eqb_eq in E. now rewrite <- E.
  - f_equal. now apply IH.
Qed.

Lemma promote_nothing_pending l event_id :
  pending_count l event_id = 0 -> promote l event_id = l.
Proof.
  unfold pending_count, promote, next_in_line. intros H.
  apply length_zero_iff_nil in H. now rewrite H.
Qed.

Lemma promote_counts l event_id k :
  NoDup (map wl_id l) ->
  pending_count l event_id = S k ->
  notified_count (promote l event_id) event_id
  = S (notified_count l event_id) /\
  pending_count (promote l event_id) event_id = k.
Proof.
  intros Hnd Hk.
  assert (Hex : exists w, next_in_line l event_id = Some w).
  { unfold next_in_line. destruct (oldest _) as [w|] eqn:E; [now exists w|].
    apply oldest_none in E. unfold pending_count in Hk.
    rewrite E in Hk. discriminate. }
  destruct Hex as (w & Hw).
  destruct (next_in_line_pending _ _ _ Hw) as (Hin & He & Hn & _).
  destruct (mark_notified_split _ _ Hnd Hin) as (l1 & l2 & Hl & Hmark).
  unfold promote. rewrite Hw, Hmark.
  revert Hk. rewrite Hl. unfold notified_count, pending_count, is_pending.
  rewrite !filter_app. simpl.
  rewrite He, String.eqb_refl, Hn. simpl.
  rewrite !length_app. simpl. lia.
Qed.

Lemma run_repeat_succ s o n :
  run s (repeat o (S n)) = run (step s o) (repeat o n).
Proof. reflexivity. Qed.

(** C10: [cancel] has no guard on the [cancelled] flag.  In a store with
    unique ids, for an attendee that is already cancelled and a matching
    token, the request succeeds after any number [n] of earlier repetitions
    and runs the promotion each time: the attendee table stays as it was (no
    further seat is freed), while the number of notified entries of the event
    has grown by [n], capped by the number of entries that were pending. *)
Theorem cancel_repeats s id tok attendee :
  unique_ids s ->
  find_attendee s id = Some attendee ->
  att_cancelled attendee = true ->
  token_differs (att_cancel_token attendee) tok = false ->
  forall n,
    let s' := run s (repeat (Cancel id tok) n) in
    let e := att_event_id attendee in
    cancel s' id tok = (Ok tt, with_waitlist s' (promote (waitlist s') e)) /\
    attendees s' = attendees s /\
    count_active s' e = count_active s e /\
    notified_count (waitlist s') e
    = notified_count (waitlist s) e + min n (pending_count (waitlist s) e).
Proof.
  intros Huniq Hfind Hcan Htok n. revert s Huniq Hfind.
  induction n as [|n IH]; intros s [Hatt Hwl] Hfind.
  - simpl. rewrite (cancel_accepted _ _ _ _ Hfind Htok).
    rewrite (update_attendee_fixed id set_cancelled (attendees s) attendee).
    + rewrite Nat.add_0_r. now repeat split.
    + exact Hatt.
    + exact Hfind.
    + now apply set_cancelled_fixed.
  - rewrite run_repeat_succ. cbv zeta. simpl step.
    rewrite (cancel_accepted _ _ _ _ Hfind Htok). simpl snd.
    rewrite (update_attendee_fixed id set_cancelled (attendees s) attendee
               Hatt Hfind (set_cancelled_fixed _ Hcan)).
    set (s1 := mkStore (events s) (attendees s)
                 (promote (waitlist s) (att_event_id attendee))).
    destruct (IH s1) as (Hc & Ha & Hcount & Hnot).
    { split; [exact Hatt|]. simpl. now rewrite promote_ids. }
    { exact Hfind. }
    split; [exact Hc|]. split; [exact Ha|]. split; [exact Hcount|].
    rewrite Hnot. simpl waitlist.
    destruct (pending_count (waitlist s) (att_event_id attendee)) as [|k] eqn:Hk.
    + rewrite (promote_nothing_pending _ _ Hk), Hk. lia.
    + destruct (promote_counts _ _ _ Hwl Hk) as [H1 H2].
      rewrite H1, H2. simpl. lia.
Qed.

Lemma cancel_repeats_witness :
  let s := run gather_store
             (ann_registered_two_waiting ++ [Cancel "a1" (TokString "t1")]) in
  let s' := run s (repeat (Cancel "a1" (TokString "t1")) 1) in
  notified_count (waitlist s) "e2" = 1 /\
  notified_count (waitlist s') "e2" = 2 /\
  count_active s' "e2" = count_active s "e2".
Proof.
  split; [reflexivity|].
  destruct (cancel_repeats
              (run gather_store
                 (ann_registered_two_waiting ++
                  [Cancel "a1" (TokString "t1")]))
              "a1" (TokString "t1")
              (mkAttendee "a1" "e2" "Ann" "ann@example.org"
                 (mkQr "a1" "e2" "Ann" "ann@example.org") (Some "t1")
                 false None true 1))
    with (n := 1) as (_ & _ & Hcount & Hnot).
  - split; repeat constructor; simpl; intuition discriminate.
  - reflexivity.
  - reflexivity.
  - reflexivity.
  - split; [exact Hnot|exact Hcount].
Defined.

(** ** Dashboard authorization *)

(** C9, as stated, fails: the dashboard of an event without an owner is
    not open to whoever knows the slug.  The route sits behind [requireAuth]:
    a request without a logged-in session is answered Unauthorized, for the
    ownerless event as well as for an owned one (which is then not
    Forbidden). *)
Lemma dashboard_requires_login :
  find_event_by_slug gather_store "picnic" = Some legacy_event /\
  ev_user_id legacy_event = None /\
  dashboard gather_store "picnic" None = Err Unauthorized /\
  find_event_by_slug gather_store "gather" = Some gather_event /\
  ev_user_id gather_event = Some "u1" /\
  dashboard gather_store "gather" None = Err Unauthorized.
Proof. repeat split. Qed.

(** C9 (amended): for an existing event, a request without a logged-in
    session fails with Unauthorized whoever owns the event.  A request of a
    logged-in user returns the aggregation when the event has no owner (its
    [user_id] is NULL) or when the user is the owner, and fails with Forbidden
    exactly when the event has an owner (a non-empty [user_id]) different from
    the user. *)
Theorem dashboard_authorization s slug session_user event :
  find_event_by_slug s slug = Some event ->
  (session_user = None -> dashboard s slug session_user = Err Unauthorized) /\
  (forall user, session_user = Some user ->
     (ev_user_id event = None \/ ev_user_id event = Some user ->
      dashboard s slug session_user = Ok (aggregate s event)) /\
     (dashboard s slug session_user = Err Forbidden <->
      exists owner, ev_user_id event = Some owner /\ owner <> EmptyString
                    /\ owner <> user) /\
     (dashboard s slug session_user <> Err Forbidden ->
      dashboard s slug session_user = Ok (aggregate s event))).
Proof.
  intros Hev. split; [intros ->; reflexivity|].
  intros user ->. unfold dashboard. rewrite Hev.
  destruct (ev_user_id event) as [owner|]; simpl.
  - unfold truthy.
    destruct (String.eqb_spec owner EmptyString), (String.eqb_spec owner user); simpl;
      (split; [|split]); try tauto; try congruence.
    + split; [discriminate|]. intros (o & Ho & Hne & _). congruence.
    + split; [discriminate|]. intros (o & Ho & Hne & _). congruence.
    + split; [discriminate|]. intros (o & Ho & _ & Hne). congruence.
    + intros [H|H]; congruence.
    + split; [intros _|reflexivity]. exists owner. auto.
  - split; [reflexivity|]. split; [|reflexivity].
    split; [discriminate|]. intros (o & Ho & _). discriminate.
Qed.

Lemma dashboard_authorization_witness :
  dashboard gather_store "picnic" (Some "u7")
  = Ok (aggregate gather_store legacy_event).
Proof.
  destruct (dashboard_authorization gather_store "picnic" (Some "u7")
              legacy_event eq_refl) as [_ H].
  destruct (H "u7" eq_refl) as [Hok _].
  apply Hok. left. reflexivity.
Defined.

(** * Further properties of the routes *)

(** ** Failed requests *)

(** A ledger request that is answered with an error has written nothing:
    the store is the one the request found. *)
Theorem failed_request_keeps_store s :
  (forall slug name email uuid token now,
     is_ok (fst (register s slug name email uuid token now)) = false ->
     snd (register s slug name email uuid token now) = s) /\
  (forall id tok,
     is_ok (fst (cancel s id tok)) = false -> snd (cancel s id tok) = s) /\
  (forall slug name email uuid now,
     is_ok (fst (joinWaitlist s slug name email uuid now)) = false ->
     snd (joinWaitlist s slug name email uuid now) = s) /\
  (forall id now,
     is_ok (fst (checkIn s id now)) = false -> snd (checkIn s id now) = s) /\
  (forall q now,
     is_ok (fst (checkInByQrPayload s q now)) = false ->
     snd (checkInByQrPayload s q now) = s).
Proof.
  repeat apply conj.
  - intros slug name email uuid token now. unfold register.
    destruct (_ || _); [reflexivity|].
    destruct (find_event_by_slug s slug); [|reflexivity].
    destruct (_ =? "cancelled"); [reflexivity|].
    destruct (_ =? "draft"); [reflexivity|].
    destruct (find_registration _ _ _).
    + destruct (negb _); [reflexivity|discriminate].
    + destruct (at_capacity _ _); [reflexivity|discriminate].
  - intros id tok. unfold cancel.
    destruct (find_attendee s id); [|reflexivity].
    destruct (token_differs _ _); [reflexivity|discriminate].
  - intros slug name email uuid now. unfold joinWaitlist.
    destruct (_ || _); [reflexivity|].
    destruct (find_event_by_slug s slug); [|reflexivity].
    destruct (find_waitlisted _ _ _); [reflexivity|discriminate].
  - intros id now. unfold checkIn.
    destruct (find_attendee s id); [|reflexivity].
    destruct (att_checked_in _); discriminate.
  - intros q now. unfold checkInByQrPayload.
    destruct q as [| |[id|]]; try reflexivity.
    destruct (negb _); [reflexivity|].
    destruct (join_event _ _ _) as [[a t]|]; [|reflexivity].
    destruct (att_cancelled a); [reflexivity|discriminate].
Qed.

(** ** Cancellation tokens *)

(** [cancel] succeeds exactly when the attendee exists and the request
    carries the stored token (JSON null for a row without token); a request
    without [cancel_token] never succeeds. *)
Theorem cancel_needs_stored_token s id tok :
  (is_ok (fst (cancel s id tok)) = true <->
   exists a, find_attendee s id = Some a
             /\ tok = token_of_json (att_cancel_token a)) /\
  (find_attendee s id = None -> fst (cancel s id tok) = Err NotFound) /\
  (forall a, find_attendee s id = Some a ->
             tok <> token_of_json (att_cancel_token a) ->
             fst (cancel s id tok) = Err InvalidToken) /\
  is_ok (fst (cancel s id TokAbsent)) = false.
Proof.
  assert (Hdiff : forall stored given,
            token_differs stored given = false <->
            given = token_of_json stored).
  { intros [a|] [| |b]; simpl; split; try discriminate; try reflexivity.
    - intros H. apply negb_false_iff, String.eqb_eq in H. now subst.
    - intros H. inversion H. now rewrite String.eqb_refl. }
  unfold cancel. split; [|split; [|split]].
  - destruct (find_attendee s id) as [a|].
    + destruct (token_differs _ _) eqn:E; simpl.
      * split; [discriminate|]. intros (a' & Ha & Ht). inversion Ha; subst a'.
        apply (proj2 (Hdiff _ _)) in Ht. congruence.
      * split; [intros _|reflexivity].
        exists a. split; [reflexivity|]. now apply (proj1 (Hdiff _ _)).
    + simpl. split; [discriminate|]. intros (a & Ha & _). discriminate.
  - intros ->. reflexivity.
  - intros a -> Hne.
    destruct (token_differs _ _) eqn:E; [reflexivity|].
    apply (proj1 (Hdiff _ _)) in E. contradiction.
  - destruct (find_attendee s id) as [a|]; [|reflexivity].
    now destruct (att_cancel_token a).
Qed.

Lemma find_attendee_same_rows s1 s2 id :
  attendees s1 = attendees s2 -> find_attendee s1 id = find_attendee s2 id.
Proof. unfold find_attendee. now intros ->. Qed.

(** The answer of [GET /attendees/:id] carries the cancel token: whoever
    knows an attendee's id can read the token there and cancel with it. *)
Theorem getAttendee_token_cancels s id attendee event :
  getAttendee s id = Ok (attendee, event) ->
  let r := cancel s id (token_of_json (att_cancel_token attendee)) in
  fst r = Ok tt /\
  option_map att_cancelled (find_attendee (snd r) id) = Some true.
Proof.
  unfold getAttendee. destruct (find_attendee s id) as [a|] eqn:Hfind;
    [|discriminate].
  intros H; inversion H; subst; clear H. cbv zeta.
  rewrite (cancel_accepted s id _ attendee Hfind).
  - cbn [fst snd]. split; [reflexivity|].
    rewrite (find_attendee_same_rows
               (mkStore (events s)
                  (update_attendee id set_cancelled (attendees s))
                  (promote (waitlist s) (att_event_id attendee)))
               (with_attendees s
                  (update_attendee id set_cancelled (attendees s)))
               id eq_refl).
    now rewrite (find_attendee_update s id set_cancelled attendee
                   (fun _ => eq_refl) Hfind).
  - destruct (att_cancel_token attendee); simpl; [|reflexivity].
    now rewrite String.eqb_refl.
Qed.

Lemma getAttendee_token_cancels_witness :
  let s := snd (register gather_store "gather" "Ann" "ann@example.org"
                  "a1" "t1" 1) in
  fst (cancel s "a1" (TokString "t1")) = Ok tt.
Proof.
  apply (getAttendee_token_cancels
           (snd (register gather_store "gather" "Ann" "ann@example.org"
                   "a1" "t1" 1))
           "a1"
           (new_attendee "a1" "e2" "Ann" "ann@example.org"
              (mkQr "a1" "e2" "Ann" "ann@example.org") "t1" 1)
           (Some gather_event)).
  reflexivity.
Defined.

Lemma failed_request_keeps_store_witness :
  snd (register draft_store "meetup" "Ann" "ann@example.org" "a1" "t1" 0)
  = draft_store.
Proof.
  apply (proj1 (failed_request_keeps_store draft_store)). reflexivity.
Defined.

Lemma cancel_needs_stored_token_witness :
  let s := snd (register gather_store "gather" "Ann" "ann@example.org"
                  "a1" "t1" 1) in
  fst (cancel s "a1" (TokString "guess")) = Err InvalidToken.
Proof.
  apply (proj1 (proj2 (proj2
           (cancel_needs_stored_token
              (snd (register gather_store "gather" "Ann" "ann@example.org"
                      "a1" "t1" 1))
              "a1" (TokString "guess"))))
           (new_attendee "a1" "e2" "Ann" "ann@example.org"
              (mkQr "a1" "e2" "Ann" "ann@example.org") "t1" 1)).
  - reflexivity.
  - discriminate.
Defined.

(** ** Joining the waitlist *)

Lemma joinWaitlist_available s slug name email uuid now event :
  name <> EmptyString -> email <> EmptyString ->
  find_event_by_slug s slug = Some event ->
  joinWaitlist s slug name email uuid now =
  match find_waitlisted s (ev_id event) email with
  | Some _ => (Err AlreadyWaitlisted, s)
  | None =>
    let l := (waitlist s
              ++ [new_waitlist_entry uuid (ev_id event) name email now])%list in
    (Ok (uuid, position l (ev_id event) now), with_waitlist s l)
  end.
Proof.
  intros Hn He Hev. unfold joinWaitlist.
  now rewrite (truthy_true _ Hn), (truthy_true _ He), Hev.
Qed.

(** The waitlist route reads neither the event's status nor its capacity:
    on any stored event, a non-empty name and an email not yet queued for it
    are accepted, whatever the status and however many seats are free.  The
    new entry is pending, the attendees are untouched, and the position
    answered lies between 1 and the number of the event's entries; it is that
    number whenever no entry of the event carries a later [created_at]. *)
Theorem joinWaitlist_accepts s slug name email uuid now event :
  name <> EmptyString -> email <> EmptyString ->
  find_event_by_slug s slug = Some event ->
  find_waitlisted s (ev_id event) email = None ->
  let r := joinWaitlist s slug name email uuid now in
  let queued l := length (filter (fun w => wl_event_id w =? ev_id event) l) in
  exists pos,
    fst r = Ok (uuid, pos) /\
    waitlist (snd r)
    = (waitlist s ++ [new_waitlist_entry uuid (ev_id event) name email now])%list /\
    attendees (snd r) = attendees s /\
    events (snd r) = events s /\
    1 <= pos <= queued (waitlist (snd r)) /\
    ((forall w, In w (waitlist s) -> wl_event_id w = ev_id event ->
                wl_created_at w <= now) ->
     pos = queued (waitlist (snd r)) /\ pos = S (queued (waitlist s))).
Proof.
  intros Hn He Hev Hnone r queued. subst r.
  rewrite (joinWaitlist_available _ _ _ _ _ _ _ Hn He Hev), Hnone.
  cbn [fst snd waitlist attendees events with_waitlist].
  eexists. split; [reflexivity|]. do 3 (split; [reflexivity|]).
  unfold position, queued. rewrite !filter_app, !length_app. simpl.
  rewrite String.eqb_refl, Nat.leb_refl. simpl.
  assert (Hle : length (filter (fun w => (wl_event_id w =? ev_id event)
                                          && (wl_created_at w <=? now)%nat)
                          (waitlist s))
                <= length (filter (fun w => wl_event_id w =? ev_id event)
                             (waitlist s))).
  { induction (waitlist s) as [|w l IH]; simpl; [lia|].
    destruct (wl_event_id w =? ev_id event); simpl; [|exact IH].
    destruct (wl_created_at w <=? now)%nat; simpl; lia. }
  split; [lia|]. intros Hmono.
  assert (Heq : filter (fun w => (wl_event_id w =? ev_id event)
                                 && (wl_created_at w <=? now)%nat) (waitlist s)
                = filter (fun w => wl_event_id w =? ev_id event) (waitlist s)).
  { apply filter_ext_in. intros w Hin.
    destruct (String.eqb_spec (wl_event_id w) (ev_id event)) as [E|];
      [|reflexivity].
    simpl. apply Nat.leb_le. now apply Hmono. }
  rewrite Heq. lia.
Qed.

Lemma joinWaitlist_accepts_witness :
  let s := mkStore [draft_event] [] [] in
  exists pos,
    fst (joinWaitlist s "meetup" "Bob" "bob@example.org" "w1" 3)
    = Ok ("w1", pos).
Proof.
  destruct (joinWaitlist_accepts (mkStore [draft_event] [] []) "meetup" "Bob"
              "bob@example.org" "w1" 3 draft_event)
    as (pos & H & _); try discriminate; try reflexivity.
  now exists pos.
Defined.

Section Waitlisted.
Variables event_id email : string.

Let queued_as (w : WaitlistEntry) : bool :=
  (wl_event_id w =? event_id) && (wl_email w =? email).

Lemma promote_waitlisted l e :
  (exists w, find queued_as l = Some w) ->
  exists w, find queued_as (promote l e) = Some w.
Proof.
  intros (w & Hw). unfold promote.
  destruct (next_in_line l e) as [n|]; [|now exists w].
  unfold mark_notified. rewrite find_map_stable, Hw; simpl.
  - eexists; reflexivity.
  - intros x. now destruct (wl_id x =? wl_id n).
Qed.

Lemma step_waitlisted s o :
  (exists w, find queued_as (waitlist s) = Some w) ->
  exists w, find queued_as (waitlist (step s o)) = Some w.
Proof.
  intros H.
  destruct o as [slug name' email' uuid token now|id' tok
                 |slug name' email' uuid now|id' now|q now]; simpl.
  - unfold register. destruct (_ || _); [exact H|].
    destruct (find_event_by_slug s slug); [|exact H].
    destruct (_ =? "cancelled"); [exact H|].
    destruct (_ =? "draft"); [exact H|].
    destruct (find_registration _ _ _).
    + now destruct (negb _).
    + now destruct (at_capacity _ _).
  - unfold cancel. destruct (find_attendee s id'); [|exact H].
    destruct (token_differs _ _); [exact H|]. simpl.
    now apply promote_waitlisted.
  - unfold joinWaitlist. destruct (_ || _); [exact H|].
    destruct (find_event_by_slug s slug); [|exact H].
    destruct (find_waitlisted _ _ _); [exact H|]. simpl.
    destruct H as (w & Hw). exists w. now rewrite find_append, Hw.
  - unfold checkIn. destruct (find_attendee s id'); [|exact H].
    now destruct (att_checked_in _).
  - unfold checkInByQrPayload. destruct q as [| |[qid|]]; try exact H.
    destruct (negb _); [exact H|].
    destruct (join_event _ _ _) as [[a t]|]; [|exact H].
    destruct (att_cancelled a); [exact H|]. simpl.
    now destruct (att_checked_in a).
Qed.

Lemma run_waitlisted ops : forall s,
  (exists w, find queued_as (waitlist s) = Some w) ->
  exists w, find queued_as (waitlist (run s ops)) = Some w.
Proof.
  induction ops as [|o ops IH]; intros s H; [exact H|].
  change (run s (o :: ops)) with (run (step s o) ops).
  now apply IH, step_waitlisted.
Qed.
End Waitlisted.

(** Once an email has joined an event's waitlist, no history of ledger
    operations makes room for it again: any later request to join with the
    same slug and email (and a non-empty name) is answered AlreadyWaitlisted
    and changes nothing.  Promotion marks entries, it never removes them. *)
Theorem joinWaitlist_twice
    s slug name email uuid now answer s1 ops name' uuid' now' :
  joinWaitlist s slug name email uuid now = (Ok answer, s1) ->
  name' <> EmptyString ->
  joinWaitlist (run s1 ops) slug name' email uuid' now'
  = (Err AlreadyWaitlisted, run s1 ops).
Proof.
  intros Hfirst Hn'. unfold joinWaitlist in Hfirst.
  destruct (truthy name); [|discriminate].
  destruct (truthy email) eqn:He; [|discriminate]. simpl in Hfirst.
  destruct (find_event_by_slug s slug) as [event|] eqn:Hev; [|discriminate].
  destruct (find_waitlisted s (ev_id event) email); [discriminate|].
  inversion Hfirst; subst; clear Hfirst.
  assert (Hin : exists w,
            find (fun w => (wl_event_id w =? ev_id event)
                           && (wl_email w =? email))
              (waitlist
                 (run (with_waitlist s
                         (waitlist s ++
                          [new_waitlist_entry uuid (ev_id event) name email
                             now])%list) ops)) = Some w).
  { apply run_waitlisted. simpl. rewrite find_append.
    destruct (find _ (waitlist s)); [eexists; reflexivity|].
    simpl. rewrite !String.eqb_refl. eexists; reflexivity. }
  destruct Hin as (w & Hw).
  unfold joinWaitlist. rewrite (truthy_true _ Hn'), He. simpl.
  unfold find_event_by_slug in *. rewrite run_events. simpl. rewrite Hev.
  unfold find_waitlisted. now rewrite Hw.
Qed.

Lemma joinWaitlist_twice_witness :
  let s1 := snd (joinWaitlist gather_store "gather" "Bob" "bob@example.org"
                   "w1" 3) in
  let ops := [ Register "gather" "Ann" "ann@example.org" "a1" "t1" 4;
               Cancel "a1" (TokString "t1") ] in
  joinWaitlist (run s1 ops) "gather" "Robert" "bob@example.org" "w2" 9
  = (Err AlreadyWaitlisted, run s1 ops).
Proof.
  apply (joinWaitlist_twice gather_store "gather" "Bob" "bob@example.org"
           "w1" 3 ("w1", 1)).
  - reflexivity.
  - discriminate.
Defined.

(** ** The queue the organizer sees *)

Lemma insert_waiting_before b pre w post :
  wl_created_at b <= wl_created_at w ->
  insert_waiting b (pre ++ w :: post) = (insert_waiting b pre ++ w :: post)%list.
Proof.
  intros Hle. induction pre as [|x pre IH]; simpl.
  - destruct (Nat.ltb_spec (wl_created_at w) (wl_created_at b));
      [lia|reflexivity].
  - destruct (wl_created_at x <? wl_created_at b)%nat; [|reflexivity].
    simpl. now rewrite IH.
Qed.

Lemma insert_waiting_after b pre w post :
  Forall (fun x => wl_created_at x <= wl_created_at w) pre ->
  wl_created_at w < wl_created_at b ->
  insert_waiting b (pre ++ w :: post)
  = (pre ++ w :: insert_waiting b post)%list.
Proof.
  intros Hpre Hlt. induction Hpre as [|x pre Hx _ IH]; simpl.
  - destruct (Nat.ltb_spec (wl_created_at w) (wl_created_at b));
      [reflexivity|lia].
  - destruct (Nat.ltb_spec (wl_created_at x) (wl_created_at b)); [|lia].
    now rewrite IH.
Qed.

Lemma insert_waiting_length b l :
  length (insert_waiting b l) = S (length l).
Proof.
  induction l as [|x l IH]; simpl; [reflexivity|].
  destruct (_ <? _)%nat; simpl; [now rewrite IH|reflexivity].
Qed.

Lemma insert_waiting_bound b l n :
  wl_created_at b <= n ->
  Forall (fun x => wl_created_at x <= n) l ->
  Forall (fun x => wl_created_at x <= n) (insert_waiting b l).
Proof.
  intros Hb Hl. induction Hl as [|x l Hx Hl IH]; simpl.
  - now repeat constructor.
  - destruct (_ <? _)%nat; constructor; auto.
Qed.

(** Where the entry appended last ends up in the sorted queue. *)
Lemma queue_order_last l w :
  exists pre post,
    queue_order (l ++ [w]) = (pre ++ w :: post)%list /\
    Forall (fun x => wl_created_at x <= wl_created_at w) pre /\
    length pre
    = length (filter (fun x => (wl_created_at x <=? wl_created_at w)%nat) l).
Proof.
  induction l as [|b l (pre & post & Hq & Hpre & Hlen)]; simpl.
  - exists [], []. repeat split. constructor.
  - unfold queue_order in *. simpl. rewrite Hq.
    destruct (Nat.leb_spec (wl_created_at b) (wl_created_at w)) as [Hle|Hgt].
    + exists (insert_waiting b pre), post.
      rewrite (insert_waiting_before _ _ _ _ Hle).
      split; [reflexivity|]. split; [now apply insert_waiting_bound|].
      simpl. now rewrite insert_waiting_length, Hlen.
    + exists pre, (insert_waiting b post).
      rewrite (insert_waiting_after _ _ _ _ Hpre Hgt). auto.
Qed.

(** The position [joinWaitlist] answers is the joiner's place in the queue
    the organizer is shown by [GET /events/:slug/waitlist] right after: the
    entry stands at that 1-based index of the listing. *)
Theorem joinWaitlist_position_in_listing
    s slug name email uuid now event owner :
  name <> EmptyString -> email <> EmptyString ->
  find_event_by_slug s slug = Some event ->
  ev_user_id event = Some owner ->
  find_waitlisted s (ev_id event) email = None ->
  let r := joinWaitlist s slug name email uuid now in
  exists pos listing,
    fst r = Ok (uuid, pos) /\
    listWaitlist (snd r) slug (Some owner) = Ok listing /\
    1 <= pos /\
    nth_error listing (pos - 1)
    = Some (new_waitlist_entry uuid (ev_id event) name email now).
Proof.
  intros Hn He Hev Hown Hnone r. subst r.
  rewrite (joinWaitlist_available _ _ _ _ _ _ _ Hn He Hev), Hnone.
  cbn [fst snd].
  unfold listWaitlist, find_event_by_slug in *. simpl. rewrite Hev.
  unfold not_owner. rewrite Hown, String.eqb_refl. simpl.
  rewrite filter_app. simpl. rewrite String.eqb_refl.
  set (w := new_waitlist_entry uuid (ev_id event) name email now).
  destruct (queue_order_last
              (filter (fun x => wl_event_id x =? ev_id event) (waitlist s)) w)
    as (pre & post & Hq & _ & Hlen).
  do 2 eexists. split; [reflexivity|]. split; [reflexivity|].
  unfold position. rewrite filter_app, length_app. simpl.
  rewrite String.eqb_refl, Nat.leb_refl. simpl.
  split; [lia|]. rewrite Hq.
  assert (Hcount : length (filter (fun x => (wl_event_id x =? ev_id event)
                                            && (wl_created_at x <=? now)%nat)
                             (waitlist s)) = length pre).
  { rewrite Hlen. clear. induction (waitlist s) as [|x l IH]; simpl;
      [reflexivity|].
    destruct (wl_event_id x =? ev_id event); simpl; [|exact IH].
    destruct (wl_created_at x <=? now)%nat; simpl; now rewrite IH. }
  rewrite Hcount.
  replace (length pre + 1 - 1) with (length pre + 0) by lia.
  now rewrite nth_error_app2, Nat.add_comm, Nat.add_sub by lia.
Qed.

Lemma joinWaitlist_position_in_listing_witness :
  let s := run gather_store
             [ JoinWaitlist "gather" "Bob" "bob@example.org" "w1" 3 ] in
  let r := joinWaitlist s "gather" "Cy" "cy@example.org" "w2" 5 in
  exists pos listing,
    fst r = Ok ("w2", pos) /\
    listWaitlist (snd r) "gather" (Some "u1") = Ok listing /\
    1 <= pos /\
    nth_error listing (pos - 1)
    = Some (new_waitlist_entry "w2" "e2" "Cy" "cy@example.org" 5).
Proof.
  apply (joinWaitlist_position_in_listing
           (run gather_store
              [ JoinWaitlist "gather" "Bob" "bob@example.org" "w1" 3 ])
           "gather" "Cy" "cy@example.org" "w2" 5 gather_event "u1");
    try discriminate; reflexivity.
Defined.

(** ** What a cancellation frees *)

Lemma update_attendee_split id f l a :
  NoDup (map att_id l) ->
  find (fun x => att_id x =? id) l = Some a ->
  exists l1 l2, l = (l1 ++ a :: l2)%list /\
                update_attendee id f l = (l1 ++ f a :: l2)%list.
Proof.
  intros Hnd Hfind. apply find_some in Hfind as [Hin Hid].
  apply String.eqb_eq in Hid.
  apply in_split in Hin as (l1 & l2 & ->). exists l1, l2.
  split; [reflexivity|].
  rewrite map_app in Hnd. simpl in Hnd.
  pose proof (NoDup_remove_2 _ _ _ Hnd) as Hout. rewrite Hid in Hout.
  unfold update_attendee. rewrite map_app. simpl.
  rewrite Hid, String.eqb_refl.
  fold (update_attendee id f l1). fold (update_attendee id f l2).
  rewrite !update_attendee_absent; [reflexivity| |];
    intros H; apply Hout, in_or_app; tauto.
Qed.

Lemma find_registration_cancelled_rows s event_id email id :
  find (same_registration event_id email)
    (update_attendee id set_cancelled (attendees s))
  = option_map (fun a => if att_id a =? id then set_cancelled a else a)
      (find_registration s event_id email).
Proof.
  unfold find_registration, update_attendee. apply find_map_stable.
  intros a. now destruct (att_id a =? id).
Qed.

Lemma active_after_cancel e l1 a l2 :
  att_cancelled a = false ->
  Z.of_nat (length (filter (is_active e) (l1 ++ set_cancelled a :: l2)))
  = (Z.of_nat (length (filter (is_active e) (l1 ++ a :: l2)))
     - (if (e =? att_event_id a)%string then 1 else 0))%Z.
Proof.
  intros Hact. rewrite !filter_app, !length_app. simpl.
  assert (H1 : is_active e (set_cancelled a) = false).
  { unfold is_active. simpl. apply andb_false_r. }
  assert (H2 : is_active e a = (e =? att_event_id a)).
  { unfold is_active. rewrite Hact, andb_true_r. apply String.eqb_sym. }
  rewrite H1, H2. destruct (e =? att_event_id a); simpl; lia.
Qed.

(** With unique attendee ids, a successful [cancel] of an attendee that was
    not yet cancelled lowers the active count of the attendee's event by one
    and leaves every other event's count alone.  So on an event that was not
    over capacity, a fresh registration right after the cancellation
    succeeds, full or not before. *)
Theorem cancel_frees_seat s id tok attendee :
  NoDup (map att_id (attendees s)) ->
  find_attendee s id = Some attendee ->
  att_cancelled attendee = false ->
  token_differs (att_cancel_token attendee) tok = false ->
  let s' := snd (cancel s id tok) in
  (count_active s' (att_event_id attendee)
   = count_active s (att_event_id attendee) - 1)%Z /\
  (forall e, e <> att_event_id attendee ->
             count_active s' e = count_active s e) /\
  (forall slug name email uuid token now event,
     name <> EmptyString -> email <> EmptyString ->
     find_event_by_slug s slug = Some event ->
     ev_id event = att_event_id attendee ->
     ev_status event <> "cancelled" -> ev_status event <> "draft" ->
     find_registration s (ev_id event) email = None ->
     (inject_Z (count_active s (ev_id event)) <= ev_capacity event)%Q ->
     is_ok (fst (register s' slug name email uuid token now)) = true).
Proof.
  intros Hnd Hfind Hact Htok s'. subst s'.
  rewrite (cancel_accepted _ _ _ _ Hfind Htok). cbn [snd].
  destruct (update_attendee_split id set_cancelled _ _ Hnd Hfind)
    as (l1 & l2 & Hl & Hupd).
  assert (Hcount : forall e,
            count_active
              (mkStore (events s)
                 (update_attendee id set_cancelled (attendees s))
                 (promote (waitlist s) (att_event_id attendee))) e
            = (count_active s e
               - (if (e =? att_event_id attendee)%string then 1 else 0))%Z).
  { intros e. unfold count_active. simpl. rewrite Hupd, Hl.
    now apply active_after_cancel. }
  split; [|split].
  - now rewrite Hcount, String.eqb_refl.
  - intros e He. rewrite Hcount, (eqb_neq_false _ _ He). lia.
  - intros slug name email uuid token now event Hn He Hev Hid Hc Hd Hnone Hcap.
    rewrite (register_available _ _ _ _ _ _ _ event Hn He); auto.
    unfold find_registration at 1. cbn [attendees].
    rewrite find_registration_cancelled_rows, Hnone. simpl.
    unfold at_capacity. rewrite Hcount, Hid, String.eqb_refl.
    destruct (Qle_bool (ev_capacity event)
                (inject_Z (count_active s (att_event_id attendee) - 1)))
      eqn:E; [|reflexivity].
    apply Qle_bool_iff in E. rewrite Hid in Hcap.
    pose proof (Qle_trans _ _ _ Hcap E) as Hle.
    rewrite <- Zle_Qle in Hle. lia.
Qed.

Lemma cancel_frees_seat_witness :
  let s := snd (register gather_store "gather" "Ann" "ann@example.org"
                  "a1" "t1" 1) in
  let s' := snd (cancel s "a1" (TokString "t1")) in
  (inject_Z (count_active s "e2") == ev_capacity gather_event)%Q /\
  is_ok (fst (register s' "gather" "Bob" "bob@example.org" "b1" "t2" 2)) = true.
Proof.
  split; [reflexivity|].
  destruct (cancel_frees_seat
              (snd (register gather_store "gather" "Ann" "ann@example.org"
                      "a1" "t1" 1))
              "a1" (TokString "t1")
              (new_attendee "a1" "e2" "Ann" "ann@example.org"
                 (mkQr "a1" "e2" "Ann" "ann@example.org") "t1" 1))
    as (_ & _ & H).
  - repeat constructor; simpl; tauto.
  - reflexivity.
  - reflexivity.
  - reflexivity.
  - apply (H "gather" "Bob" "bob@example.org" "b1" "t2" 2 gather_event);
      try discriminate; reflexivity.
Defined.

(** ** Rows are never removed, keys never rewritten *)

Lemma update_attendee_keys id f l :
  (forall a, att_key (f a) = att_key a) ->
  map att_key (update_attendee id f l) = map att_key l.
Proof.
  intros Hf. unfold update_attendee. rewrite map_map. apply map_ext.
  intros a. destruct (att_id a =? id); [apply Hf|reflexivity].
Qed.

Lemma promote_keys l e : map wl_key (promote l e) = map wl_key l.
Proof.
  unfold promote. destruct (next_in_line l e) as [n|]; [|reflexivity].
  unfold mark_notified. rewrite map_map. apply map_ext.
  intros w. now destruct (wl_id w =? wl_id n).
Qed.

Lemma step_keys s o :
  (exists rest, map att_key (attendees (step s o))
                = (map att_key (attendees s) ++ rest)%list) /\
  (exists rest, map wl_key (waitlist (step s o))
                = (map wl_key (waitlist s) ++ rest)%list) /\
  (forall w, In w (waitlist s) -> wl_notified w = true ->
             In w (waitlist (step s o))).
Proof.
  assert (Hsame : forall s' : Store,
            attendees s' = attendees s -> waitlist s' = waitlist s ->
            (exists rest, map att_key (attendees s')
                          = (map att_key (attendees s) ++ rest)%list) /\
            (exists rest, map wl_key (waitlist s')
                          = (map wl_key (waitlist s) ++ rest)%list) /\
            (forall w, In w (waitlist s) -> wl_notified w = true ->
                       In w (waitlist s'))).
  { intros s' -> ->. split; [|split]; try (exists []; now rewrite app_nil_r).
    auto. }
  assert (Hupd : forall id f,
            (forall a, att_key (f a) = att_key a) ->
            (exists rest,
               map att_key (update_attendee id f (attendees s))
               = (map att_key (attendees s) ++ rest)%list)).
  { intros id f Hf. exists []. now rewrite app_nil_r, update_attendee_keys. }
  destruct o as [slug name email uuid token now|id tok
                 |slug name email uuid now|id now|q now]; simpl.
  - unfold register. destruct (_ || _); [now apply Hsame|].
    destruct (find_event_by_slug s slug); [|now apply Hsame].
    destruct (_ =? "cancelled"); [now apply Hsame|].
    destruct (_ =? "draft"); [now apply Hsame|].
    destruct (find_registration _ _ _).
    + destruct (negb _); [now apply Hsame|]. simpl.
      split; [now apply Hupd|]. split; [exists []; now rewrite app_nil_r|auto].
    + destruct (at_capacity _ _); [now apply Hsame|]. simpl.
      split; [eexists; now rewrite map_app|].
      split; [exists []; now rewrite app_nil_r|auto].
  - unfold cancel. destruct (find_attendee s id); [|now apply Hsame].
    destruct (token_differs _ _); [now apply Hsame|]. simpl.
    split; [now apply Hupd|].
    split; [exists []; now rewrite app_nil_r, promote_keys|].
    intros w. apply promote_keeps_notified.
  - unfold joinWaitlist. destruct (_ || _); [now apply Hsame|].
    destruct (find_event_by_slug s slug); [|now apply Hsame].
    destruct (find_waitlisted _ _ _); [now apply Hsame|]. simpl.
    split; [exists []; now rewrite app_nil_r|].
    split; [eexists; now rewrite map_app|].
    intros w Hin _. apply in_or_app. now left.
  - unfold checkIn. destruct (find_attendee s id); [|now apply Hsame].
    destruct (att_checked_in _); [now apply Hsame|]. simpl.
    split; [now apply Hupd|]. split; [exists []; now rewrite app_nil_r|auto].
  - unfold checkInByQrPayload. destruct q as [| |[qid|]]; try now apply Hsame.
    destruct (negb _); [now apply Hsame|].
    destruct (join_event _ _ _) as [[a t]|]; [|now apply Hsame].
    destruct (att_cancelled a); [now apply Hsame|]. simpl.
    destruct (att_checked_in a); [now apply Hsame|]. simpl.
    split; [now apply Hupd|]. split; [exists []; now rewrite app_nil_r|auto].
Qed.

(** Through any history of ledger operations the attendee table only grows
    at its end: the rows it had are all still there, in place, with the id,
    event, email, cancel token and creation time they had.  In particular no
    operation removes a registration or replaces a cancel token. *)
Theorem attendees_only_appended ops : forall s,
  exists rest,
    map att_key (attendees (run s ops))
    = (map att_key (attendees s) ++ rest)%list.
Proof.
  induction ops as [|o ops IH]; intros s.
  - exists []. simpl. now rewrite app_nil_r.
  - change (run s (o :: ops)) with (run (step s o) ops).
    destruct (IH (step s o)) as (rest2 & H2).
    destruct (step_keys s o) as ((rest1 & H1) & _).
    exists (rest1 ++ rest2)%list. now rewrite H2, H1, app_assoc.
Qed.

(** Likewise for the waitlist: its rows stay, in place, with their id,
    event, name, email and creation time, and an entry that has been notified
    stays in the table exactly as it is, so [notified] never returns to
    false. *)
Theorem waitlist_only_appended ops : forall s,
  (exists rest,
     map wl_key (waitlist (run s ops))
     = (map wl_key (waitlist s) ++ rest)%list) /\
  (forall w, In w (waitlist s) -> wl_notified w = true ->
             In w (waitlist (run s ops))).
Proof.
  induction ops as [|o ops IH]; intros s.
  - split; [exists []; simpl; now rewrite app_nil_r|auto].
  - change (run s (o :: ops)) with (run (step s o) ops).
    destruct (IH (step s o)) as ((rest2 & H2) & Hn2).
    destruct (step_keys s o) as (_ & (rest1 & H1) & Hn1).
    split.
    + exists (rest1 ++ rest2)%list. now rewrite H2, H1, app_assoc.
    + intros w Hin Hn. apply Hn2; [|assumption]. now apply Hn1.
Qed.

Lemma waitlist_only_appended_witness :
  let s := run gather_store ann_registered_two_waiting in
  let w := mkWaitlistEntry "w1" "e2" "Bob" "bob@example.org" true 3 in
  In w (waitlist
          (run (snd (cancel s "a1" (TokString "t1")))
             [ Cancel "a1" (TokString "t1");
               JoinWaitlist "gather" "Di" "di@example.org" "w3" 8 ])).
Proof.
  apply (proj2 (waitlist_only_appended
                  [ Cancel "a1" (TokString "t1");
                    JoinWaitlist "gather" "Di" "di@example.org" "w3" 8 ]
                  (snd (cancel (run gather_store ann_registered_two_waiting)
                          "a1" (TokString "t1"))))).
  - left. reflexivity.
  - reflexivity.
Defined.

(** ** Check-in is one-way *)

Lemma join_event_row evs l id a t :
  join_event evs l id = Some (a, t) -> In a l /\ att_id a = id.
Proof.
  induction l as [|x l IH]; simpl; [discriminate|].
  destruct (String.eqb_spec (att_id x) id) as [E|].
  - destruct (find _ evs).
    + intros H; inversion H; subst. auto.
    + intros H. apply IH in H. tauto.
  - intros H. apply IH in H. tauto.
Qed.

Lemma attendee_unique_by_id l (a b : Attendee) :
  NoDup (map att_id l) -> In a l -> In b l -> att_id a = att_id b -> a = b.
Proof.
  induction l as [|c l IH]; simpl; [tauto|].
  intros Hnd [->|Ha] [->|Hb] E; try reflexivity.
  - inversion Hnd; subst. exfalso. apply H1. rewrite E. now apply in_map.
  - inversion Hnd; subst. exfalso. apply H1. rewrite <- E. now apply in_map.
  - inversion Hnd; subst. now apply IH.
Qed.

(** With unique attendee ids, no operation changes the check-in time of an
    attendee that is checked in, and only a registration request (the
    reactivation of the cancelled record) can clear [checked_in]: cancelling,
    checking in again by either route and waitlist traffic all leave the
    attendee checked in at the time of the first check-in. *)
Theorem checked_in_stays s o id attendee :
  NoDup (map att_id (attendees s)) ->
  find_attendee s id = Some attendee ->
  att_checked_in attendee = true ->
  exists a,
    find_attendee (step s o) id = Some a /\
    att_checked_in_at a = att_checked_in_at attendee /\
    match o with
    | Register _ _ _ _ _ _ => True
    | _ => att_checked_in a = true
    end.
Proof.
  intros Hnd Hfind Hin.
  assert (Hsame : forall s' : Store,
            attendees s' = attendees s ->
            exists a, find_attendee s' id = Some a /\
                      att_checked_in_at a = att_checked_in_at attendee /\
                      att_checked_in a = true).
  { intros s' E. exists attendee.
    now rewrite (find_attendee_same_rows s' s id E). }
  assert (Hupd : forall s' id' f,
            attendees s' = update_attendee id' f (attendees s) ->
            (forall a, att_id (f a) = att_id a) ->
            find_attendee s' id
            = Some (if att_id attendee =? id' then f attendee else attendee)).
  { intros s' id' f E Hf. unfold find_attendee in *. rewrite E.
    unfold update_attendee. rewrite find_map_stable, Hfind; [reflexivity|].
    intros x. destruct (att_id x =? id'); [|reflexivity].
    now rewrite Hf. }
  destruct o as [slug name email uuid token now|id' tok
                 |slug name email uuid now|id' now|q now]; simpl.
  - unfold register.
    destruct (_ || _); [destruct (Hsame s eq_refl) as (a & ? & ? & ?); eauto|].
    destruct (find_event_by_slug s slug);
      [|destruct (Hsame s eq_refl) as (a & ? & ? & ?); eauto].
    destruct (_ =? "cancelled");
      [destruct (Hsame s eq_refl) as (a & ? & ? & ?); eauto|].
    destruct (_ =? "draft");
      [destruct (Hsame s eq_refl) as (a & ? & ? & ?); eauto|].
    destruct (find_registration _ _ _) as [existing|].
    + destruct (negb _);
        [destruct (Hsame s eq_refl) as (a & ? & ? & ?); eauto|]. simpl.
      eexists. split; [apply Hupd; reflexivity|].
      split; [|exact I]. now destruct (att_id attendee =? att_id existing).
    + destruct (at_capacity _ _);
        [destruct (Hsame s eq_refl) as (a & ? & ? & ?); eauto|]. simpl.
      exists attendee. unfold find_attendee in *. simpl.
      now rewrite find_append, Hfind.
  - unfold cancel. destruct (find_attendee s id'); [|now apply Hsame].
    destruct (token_differs _ _); [now apply Hsame|]. simpl.
    eexists. split; [apply Hupd; reflexivity|].
    now destruct (att_id attendee =? id').
  - apply Hsame. unfold joinWaitlist. destruct (_ || _); [reflexivity|].
    destruct (find_event_by_slug s slug); [|reflexivity].
    now destruct (find_waitlisted _ _ _).
  - unfold checkIn. destruct (find_attendee s id') as [b|] eqn:Hb;
      [|now apply Hsame].
    destruct (att_checked_in b) eqn:Hbin; [now apply Hsame|]. simpl.
    eexists. split; [apply Hupd; reflexivity|].
    destruct (String.eqb_spec (att_id attendee) id') as [E|]; [|auto].
    exfalso. apply find_some in Hfind as [Hina Hida].
    apply find_some in Hb as [Hinb Hidb].
    apply String.eqb_eq in Hidb.
    assert (attendee = b)
      by (eapply attendee_unique_by_id; eauto; congruence).
    congruence.
  - unfold checkInByQrPayload.
    destruct q as [| |[qid|]]; try now apply Hsame.
    destruct (negb _); [now apply Hsame|].
    destruct (join_event _ _ _) as [[b t]|] eqn:Hb; [|now apply Hsame].
    destruct (att_cancelled b); [now apply Hsame|]. simpl.
    destruct (att_checked_in b) eqn:Hbin; [now apply Hsame|]. simpl.
    eexists. split; [apply Hupd; reflexivity|].
    destruct (String.eqb_spec (att_id attendee) qid) as [E|]; [|auto].
    exfalso. apply find_some in Hfind as [Hina Hida].
    apply join_event_row in Hb as [Hinb Hidb].
    assert (attendee = b)
      by (eapply attendee_unique_by_id; eauto; congruence).
    congruence.
Qed.

Lemma checked_in_stays_witness :
  let s := run gather_store
             [ Register "gather" "Ann" "ann@example.org" "a1" "t1" 1;
               CheckIn "a1" "2024-05-01T18:00:00.000Z" ] in
  exists a,
    find_attendee (step s (CheckInByQr (QrObject (Some "a1"))
                             "2024-05-01T21:30:00.000Z")) "a1" = Some a /\
    att_checked_in_at a = Some "2024-05-01T18:00:00.000Z" /\
    att_checked_in a = true.
Proof.
  apply (checked_in_stays
           (run gather_store
              [ Register "gather" "Ann" "ann@example.org" "a1" "t1" 1;
                CheckIn "a1" "2024-05-01T18:00:00.000Z" ])
           (CheckInByQr (QrObject (Some "a1")) "2024-05-01T21:30:00.000Z")
           "a1"
           (mkAttendee "a1" "e2" "Ann" "ann@example.org"
              (mkQr "a1" "e2" "Ann" "ann@example.org") (Some "t1")
              true (Some "2024-05-01T18:00:00.000Z") false 1)).
  - repeat constructor; simpl; tauto.
  - reflexivity.
  - reflexivity.
Defined.

(** ** QR check-in *)

Lemma join_event_unknown evs l id :
  find (fun a => att_id a =? id) l = None -> join_event evs l id = None.
Proof.
  induction l as [|x l IH]; simpl; [reflexivity|].
  destruct (att_id x =? id); [discriminate|exact IH].
Qed.

Lemma qr_accepts s id now attendee event :
  id <> EmptyString ->
  find_attendee s id = Some attendee ->
  find_event_by_id s (att_event_id attendee) = Some event ->
  att_cancelled attendee = false ->
  checkInByQrPayload s (QrObject (Some id)) now
  = (Ok (mkQrCheckin (att_checked_in attendee) (att_id attendee)
           (att_name attendee) (att_email attendee) (ev_title event) true),
     if att_checked_in attendee then s
     else with_attendees s
            (update_attendee id (set_checked_in now) (attendees s))).
Proof.
  intros Hid Hfind Hev Hcan. unfold checkInByQrPayload.
  rewrite (truthy_true _ Hid); simpl.
  now rewrite (join_event_found _ _ _ _ Hfind Hev), Hcan.
Qed.

(** For an attendee that is not cancelled (and whose event is stored), the
    QR route does to the store exactly what the manual route does; its
    answer names the attendee and the event's title, reports [checked_in]
    as true and tells in [already_checked_in] whether the attendee was
    checked in before. *)
Theorem checkInByQrPayload_as_checkIn s id now attendee event :
  id <> EmptyString ->
  find_attendee s id = Some attendee ->
  find_event_by_id s (att_event_id attendee) = Some event ->
  att_cancelled attendee = false ->
  let r := checkInByQrPayload s (QrObject (Some id)) now in
  snd r = snd (checkIn s id now) /\
  fst r = Ok (mkQrCheckin (att_checked_in attendee) (att_id attendee)
                (att_name attendee) (att_email attendee) (ev_title event)
                true) /\
  option_map att_checked_in (find_attendee (snd r) id) = Some true.
Proof.
  intros Hid Hfind Hev Hcan r. subst r.
  rewrite (qr_accepts _ _ now _ _ Hid Hfind Hev Hcan). cbn [fst snd].
  destruct (att_checked_in attendee) eqn:Hin.
  - rewrite (checkIn_already _ _ now _ Hfind Hin). cbn [snd].
    now rewrite Hfind; simpl; rewrite Hin.
  - rewrite (checkIn_first _ _ now _ Hfind Hin). cbn [snd].
    now rewrite (find_attendee_update s id (set_checked_in now) attendee
                   (fun _ => eq_refl) Hfind).
Qed.

Lemma checkInByQrPayload_as_checkIn_witness :
  let s := snd (register gather_store "gather" "Ann" "ann@example.org"
                  "a1" "t1" 1) in
  snd (checkInByQrPayload s (QrObject (Some "a1")) "2024-05-01T18:00:00.000Z")
  = snd (checkIn s "a1" "2024-05-01T18:00:00.000Z").
Proof.
  apply (checkInByQrPayload_as_checkIn
           (snd (register gather_store "gather" "Ann" "ann@example.org"
                   "a1" "t1" 1))
           "a1" "2024-05-01T18:00:00.000Z"
           (new_attendee "a1" "e2" "Ann" "ann@example.org"
              (mkQr "a1" "e2" "Ann" "ann@example.org") "t1" 1)
           gather_event);
    try discriminate; reflexivity.
Defined.

(** What the QR route refuses: a payload that does not parse, or parses to
    a value without a (non-empty) [attendeeId], is InvalidPayload, except
    that a payload parsing to [null] is answered with the route's internal
    error (reading [attendeeId] off [null] throws); an [attendeeId] that
    matches no attendee is NotFound, in any store. *)
Theorem checkInByQrPayload_rejects s now :
  fst (checkInByQrPayload s QrMalformed now) = Err InvalidPayload /\
  fst (checkInByQrPayload s (QrObject None) now) = Err InvalidPayload /\
  fst (checkInByQrPayload s (QrObject (Some EmptyString)) now)
  = Err InvalidPayload /\
  fst (checkInByQrPayload s QrNull now) = Err InternalError /\
  (forall id, find_attendee s id = None ->
              fst (checkInByQrPayload s (QrObject (Some id)) now)
              = Err (if truthy id then NotFound else InvalidPayload)).
Proof.
  do 4 (split; [reflexivity|]).
  intros id Hnone. unfold checkInByQrPayload.
  destruct (truthy id); simpl; [|reflexivity].
  now rewrite (join_event_unknown _ _ _ Hnone).
Qed.

Lemma checkInByQrPayload_rejects_witness :
  fst (checkInByQrPayload gather_store (QrObject (Some "nobody"))
         "2024-05-01T18:00:00.000Z") = Err NotFound.
Proof.
  apply (proj2 (proj2 (proj2 (proj2
           (checkInByQrPayload_rejects gather_store
              "2024-05-01T18:00:00.000Z")))) "nobody").
  reflexivity.
Defined.

(** What a successful registration stores under the id it answers. *)
Lemma register_ok_row s slug name email uuid token now reg s1 :
  register s slug name email uuid token now = (Ok reg, s1) ->
  exists event a,
    find_event_by_slug s slug = Some event /\
    events s1 = events s /\
    In a (attendees s1) /\
    att_id a = reg_id reg /\
    att_event_id a = ev_id event /\
    att_name a = name /\ att_email a = email /\
    att_cancelled a = false /\ att_checked_in a = false /\
    reg_name reg = name /\ reg_email reg = email /\
    reg_qr_code reg = mkQr (reg_id reg) (ev_id event) name email /\
    att_qr_code a = reg_qr_code reg.
Proof.
  unfold register.
  destruct (_ || _); [discriminate|].
  destruct (find_event_by_slug s slug) as [event|]; [|discriminate].
  destruct (ev_status event =? "cancelled"); [discriminate|].
  destruct (ev_status event =? "draft"); [discriminate|].
  destruct (find_registration s (ev_id event) email) as [existing|] eqn:Hreg.
  - destruct (att_cancelled existing); [|discriminate]. simpl.
    intros H; inversion H; subst; clear H.
    exists event,
      (reactivate name (mkQr (att_id existing) (ev_id event) name email)
         existing).
    apply find_some in Hreg as [Hin Hkey]. unfold same_registration in Hkey.
    apply andb_prop in Hkey as [Hk1 Hk2].
    apply String.eqb_eq in Hk1. apply String.eqb_eq in Hk2. simpl.
    split; [reflexivity|]. split; [reflexivity|]. split.
    { unfold update_attendee. apply in_map_iff. exists existing.
      now rewrite String.eqb_refl. }
    repeat split; assumption.
  - destruct (at_capacity _ _); [discriminate|].
    intros H; inversion H; subst; clear H.
    exists event,
      (new_attendee uuid (ev_id event) name email
         (mkQr uuid (ev_id event) name email) token now). simpl.
    split; [reflexivity|]. split; [reflexivity|]. split.
    { apply in_or_app. right. now left. }
    repeat split.
Qed.

(** The QR code issued by a successful registration, fresh or reactivating,
    checks in the attendee it was issued to: scanning its payload is accepted,
    names that attendee with the registered name and email, and reports a
    first check-in.  Attendee ids are assumed unique. *)
Theorem register_then_scan s slug name email uuid token now reg s1 now' :
  register s slug name email uuid token now = (Ok reg, s1) ->
  NoDup (map att_id (attendees s1)) ->
  reg_id reg <> EmptyString ->
  let r := checkInByQrPayload s1
             (QrObject (Some (attendeeId (reg_qr_code reg)))) now' in
  exists title,
    fst r = Ok (mkQrCheckin false (reg_id reg) name email title true) /\
    option_map att_checked_in (find_attendee (snd r) (reg_id reg)) = Some true.
Proof.
  intros Hreg Hnd Hid r. subst r.
  destruct (register_ok_row _ _ _ _ _ _ _ _ _ Hreg)
    as (event & a & Hev & Hevs & Hin & Ha & Hae & Hn & Hem & Hc & Hci
        & _ & _ & Hqr & _).
  rewrite Hqr. simpl attendeeId.
  assert (Hfind : find_attendee s1 (reg_id reg) = Some a).
  { unfold find_attendee.
    destruct (find _ (attendees s1)) as [b|] eqn:Hb.
    - apply find_some in Hb as [Hinb Hidb]. apply String.eqb_eq in Hidb.
      f_equal. eapply attendee_unique_by_id; eauto. congruence.
    - exfalso. apply (find_none _ _ Hb) in Hin.
      rewrite Ha, String.eqb_refl in Hin. discriminate. }
  assert (Hevent : exists e, find_event_by_id s1 (att_event_id a) = Some e).
  { unfold find_event_by_id, find_event_by_slug in *. rewrite Hevs, Hae.
    apply find_some in Hev as [Hine _].
    destruct (find _ (events s)) as [e|] eqn:He; [now exists e|].
    apply (find_none _ _ He) in Hine. now rewrite String.eqb_refl in Hine. }
  destruct Hevent as (e & He).
  rewrite (qr_accepts s1 (reg_id reg) now' a e Hid Hfind He Hc).
  exists (ev_title e). rewrite Hci, Ha, Hn, Hem. cbn [fst snd].
  split; [reflexivity|].
  now rewrite (find_attendee_update s1 (reg_id reg) (set_checked_in now') a
                 (fun _ => eq_refl) Hfind).
Qed.

Lemma register_then_scan_witness :
  let r := register gather_store "gather" "Ann" "ann@example.org" "a1" "t1" 1 in
  exists title,
    fst (checkInByQrPayload (snd r) (QrObject (Some "a1"))
           "2024-05-01T18:00:00.000Z")
    = Ok (mkQrCheckin false "a1" "Ann" "ann@example.org" title true).
Proof.
  destruct (register_then_scan gather_store "gather" "Ann" "ann@example.org"
              "a1" "t1" 1
              (mkRegistration "a1" "Ann" "ann@example.org"
                 (mkQr "a1" "e2" "Ann" "ann@example.org") gather_event
                 (Some "t1") false)
              (snd (register gather_store "gather" "Ann" "ann@example.org"
                      "a1" "t1" 1))
              "2024-05-01T18:00:00.000Z")
    as (title & H & _).
  - reflexivity.
  - repeat constructor; simpl; tauto.
  - discriminate.
  - now exists title.
Defined.

(** ** The dashboard aggregation *)

Lemma filter_map_commute {A B} (p : B -> bool) (f : A -> B) (l : list A) :
  filter p (map f l) = map f (filter (fun x => p (f x)) l).
Proof.
  induction l as [|x l IH]; simpl; [reflexivity|].
  destruct (p (f x)); simpl; now rewrite IH.
Qed.

Lemma insert_desc_in a l x : In x (insert_desc a l) <-> x = a \/ In x l.
Proof.
  induction l as [|b l IH]; simpl; [intuition|].
  destruct (_ <? _)%nat; simpl; [rewrite IH|]; intuition.
Qed.

Lemma newest_first_in l x : In x (newest_first l) <-> In x l.
Proof.
  induction l as [|a l IH]; simpl; [tauto|].
  rewrite insert_desc_in, IH. intuition.
Qed.

Lemma insert_desc_count p a l :
  length (filter p (insert_desc a l)) = length (filter p (a :: l)).
Proof.
  induction l as [|b l IH]; [reflexivity|]. simpl insert_desc.
  destruct (_ <? _)%nat; [|reflexivity].
  simpl in *. destruct (p b), (p a); simpl in *; lia.
Qed.

Lemma newest_first_count p l :
  length (filter p (newest_first l)) = length (filter p l).
Proof.
  induction l as [|a l IH]; [reflexivity|]. simpl newest_first.
  rewrite insert_desc_count. simpl. destruct (p a); simpl; now rewrite IH.
Qed.

Lemma insert_desc_sorted a l :
  StronglySorted (fun x y => att_created_at y <= att_created_at x) l ->
  StronglySorted (fun x y => att_created_at y <= att_created_at x)
    (insert_desc a l).
Proof.
  intros Hs. induction Hs as [|b l Hs IH Hb]; simpl.
  - repeat constructor.
  - destruct (Nat.ltb_spec (att_created_at a) (att_created_at b)).
    + constructor; [exact IH|]. apply Forall_forall. intros x Hx.
      apply insert_desc_in in Hx as [->|Hx]; [lia|].
      now apply (proj1 (Forall_forall _ _) Hb).
    + constructor; [now constructor|]. constructor; [lia|].
      eapply Forall_impl; [|exact Hb]. simpl. intros; lia.
Qed.

Lemma newest_first_sorted l :
  StronglySorted (fun x y => att_created_at y <= att_created_at x)
    (newest_first l).
Proof.
  induction l as [|a l IH]; simpl; [constructor|].
  now apply insert_desc_sorted.
Qed.

Lemma StronglySorted_filter {A} (R : A -> A -> Prop) p l :
  StronglySorted R l -> StronglySorted R (filter p l).
Proof.
  intros Hs. induction Hs as [|a l Hs IH Ha]; simpl; [constructor|].
  destruct (p a); [|exact IH]. constructor; [exact IH|].
  apply Forall_forall. intros x Hx. apply filter_In in Hx as [Hx _].
  now apply (proj1 (Forall_forall _ _) Ha).
Qed.

Lemma StronglySorted_map {A B} (R : B -> B -> Prop) (f : A -> B) l :
  StronglySorted (fun x y => R (f x) (f y)) l -> StronglySorted R (map f l).
Proof.
  intros Hs. induction Hs as [|a l Hs IH Ha]; simpl; constructor; auto.
  apply Forall_forall. intros y Hy. apply in_map_iff in Hy as (x & <- & Hx).
  now apply (proj1 (Forall_forall _ _) Ha).
Qed.

Lemma dashboard_ok_inv s slug user d :
  dashboard s slug (Some user) = Ok d ->
  exists event, find_event_by_slug s slug = Some event
                /\ d = aggregate s event.
Proof.
  unfold dashboard. destruct (find_event_by_slug s slug) as [event|];
    [|discriminate].
  destruct (_ && _); [discriminate|]. intros H; inversion H. now exists event.
Qed.

Lemma aggregate_total s event :
  Z.of_nat (dash_total (aggregate s event)) = count_active s (ev_id event).
Proof.
  unfold aggregate, count_active. simpl. f_equal.
  rewrite filter_map_commute, length_map. simpl.
  rewrite newest_first_count.
  induction (attendees s) as [|a l IH]; simpl; [reflexivity|].
  unfold is_active at 1.
  destruct (att_event_id a =? ev_id event); simpl; [|exact IH].
  destruct (att_cancelled a); simpl; now rewrite IH.
Qed.

(** The dashboard counts what it lists, and lists only registrations that
    are not cancelled: [total] is the length of the listing and equals the
    active count the registration route compares with the capacity;
    [checked_in] is at most [total], and there are at most [checked_in]
    check-in times. *)
Theorem dashboard_counts s slug user d :
  dashboard s slug (Some user) = Ok d ->
  Forall (fun r => row_cancelled r = false) (dash_attendees d) /\
  dash_total d = length (dash_attendees d) /\
  Z.of_nat (dash_total d) = count_active s (ev_id (dash_event d)) /\
  dash_checked_in d <= dash_total d /\
  length (dash_checkin_times d) <= dash_checked_in d.
Proof.
  intros H. apply dashboard_ok_inv in H as (event & _ & ->).
  split; [|split; [|split; [|split]]].
  - apply Forall_forall. intros r Hr. unfold aggregate in Hr. simpl in Hr.
    apply filter_In in Hr as [_ Hr]. now apply negb_true_iff in Hr.
  - reflexivity.
  - apply aggregate_total.
  - unfold aggregate. simpl. apply filter_length_le.
  - unfold aggregate. simpl.
    generalize (filter row_checked_in
                  (filter (fun a => negb (row_cancelled a))
                     (map dashboard_row
                        (newest_first
                           (filter (fun a => att_event_id a =? ev_id event)
                              (attendees s)))))).
    intros l. induction l as [|r l IH]; simpl; [lia|].
    rewrite length_app.
    destruct (row_checked_in_at r) as [t|]; [destruct (truthy t)|]; simpl; lia.
Qed.

Lemma dashboard_counts_witness :
  let s := run gather_store ann_cancelled_bob_registered in
  let d := aggregate s gather_event in
  Forall (fun r => row_cancelled r = false) (dash_attendees d) /\
  dash_total d = 1.
Proof.
  destruct (dashboard_counts
              (run gather_store ann_cancelled_bob_registered) "gather" "u1"
              (aggregate (run gather_store ann_cancelled_bob_registered)
                 gather_event))
    as (H1 & _); [reflexivity|].
  split; [exact H1|reflexivity].
Defined.

(** The listing is complete and ordered: its rows are exactly the rows of
    the event's attendees that are not cancelled, newest registration
    first. *)
Theorem dashboard_listing s slug user d :
  dashboard s slug (Some user) = Ok d ->
  StronglySorted (fun x y => row_created_at y <= row_created_at x)
    (dash_attendees d) /\
  (forall r, In r (dash_attendees d) <->
             exists a, In a (attendees s)
                       /\ att_event_id a = ev_id (dash_event d)
                       /\ att_cancelled a = false
                       /\ r = dashboard_row a).
Proof.
  intros H. apply dashboard_ok_inv in H as (event & _ & ->).
  unfold aggregate. simpl. split.
  - apply StronglySorted_filter, StronglySorted_map. simpl.
    apply newest_first_sorted.
  - intros r. rewrite filter_In, in_map_iff. split.
    + intros ((a & <- & Ha) & Hc). apply (proj1 (newest_first_in _ _)) in Ha.
      apply filter_In in Ha as [Hin He]. apply String.eqb_eq in He.
      simpl in Hc. apply negb_true_iff in Hc. now exists a.
    + intros (a & Hin & He & Hc & ->). split.
      * exists a. split; [reflexivity|]. apply (proj2 (newest_first_in _ _)).
        apply filter_In. split; [assumption|]. now apply String.eqb_eq.
      * simpl. now rewrite Hc.
Qed.

Lemma dashboard_listing_witness :
  let s := run gather_store ann_cancelled_bob_registered in
  In (mkDashboardRow "b1" "Bob" "bob@example.org" false None false 2)
    (dash_attendees (aggregate s gather_event)).
Proof.
  destruct (dashboard_listing
              (run gather_store ann_cancelled_bob_registered) "gather" "u1"
              (aggregate (run gather_store ann_cancelled_bob_registered)
                 gather_event) eq_refl) as [_ H].
  apply H.
  exists (new_attendee "b1" "e2" "Bob" "bob@example.org"
            (mkQr "b1" "e2" "Bob" "bob@example.org") "t2" 2).
  split; [right; left; reflexivity|]. now repeat split.
Defined.

Lemma aggregate_row_source s event r :
  In r (dash_attendees (aggregate s event)) ->
  exists a, In a (attendees s) /\ att_cancelled a = false
            /\ r = dashboard_row a.
Proof.
  unfold aggregate. simpl. rewrite filter_In, in_map_iff.
  intros ((a & <- & Ha) & Hc). apply (proj1 (newest_first_in _ _)) in Ha.
  apply filter_In in Ha as [Hin _]. simpl in Hc. apply negb_true_iff in Hc.
  now exists a.
Qed.

Lemma promote_event_count l e event_id :
  length (filter (fun w => wl_event_id w =? event_id) (promote l e))
  = length (filter (fun w => wl_event_id w =? event_id) l).
Proof.
  unfold promote. destruct (next_in_line l e) as [n|]; [|reflexivity].
  unfold mark_notified. rewrite filter_map_commute, length_map.
  f_equal. apply filter_ext. intros w. now destruct (wl_id w =? wl_id n).
Qed.

(** After a successful [cancel] the attendee is gone from the dashboard
    listing of every event, while the dashboard's waitlist count is what it
    was: promotion marks an entry and removes none. *)
Theorem cancel_then_dashboard s id tok s' slug user d' :
  cancel s id tok = (Ok tt, s') ->
  dashboard s' slug (Some user) = Ok d' ->
  (forall r, In r (dash_attendees d') -> row_id r <> id) /\
  (forall d, dashboard s slug (Some user) = Ok d ->
             dash_event d' = dash_event d /\
             dash_waitlist_count d' = dash_waitlist_count d).
Proof.
  intros Hcancel Hd'. unfold cancel in Hcancel.
  destruct (find_attendee s id) as [attendee|]; [|discriminate].
  destruct (token_differs _ _); [discriminate|].
  inversion Hcancel; subst s'; clear Hcancel.
  apply dashboard_ok_inv in Hd' as (event & Hev & ->). split.
  - intros r Hr. apply aggregate_row_source in Hr as (a & Hin & Hc & ->).
    simpl in Hin. unfold update_attendee in Hin.
    apply in_map_iff in Hin as (x & Hx & _).
    destruct (String.eqb_spec (att_id x) id) as [E|E]; subst a.
    + simpl in Hc. discriminate.
    + exact E.
  - intros d Hd. apply dashboard_ok_inv in Hd as (event0 & Hev0 & ->).
    unfold find_event_by_slug in *. simpl in Hev. rewrite Hev0 in Hev.
    inversion Hev; subst event0. split; [reflexivity|].
    unfold aggregate. simpl. apply promote_event_count.
Qed.

Lemma cancel_then_dashboard_witness :
  let s := run gather_store ann_registered_two_waiting in
  let s' := snd (cancel s "a1" (TokString "t1")) in
  dash_waitlist_count (aggregate s' gather_event)
  = dash_waitlist_count (aggregate s gather_event).
Proof.
  destruct (cancel_then_dashboard
              (run gather_store ann_registered_two_waiting)
              "a1" (TokString "t1")
              (snd (cancel (run gather_store ann_registered_two_waiting)
                      "a1" (TokString "t1")))
              "gather" "u1"
              (aggregate
                 (snd (cancel (run gather_store ann_registered_two_waiting)
                         "a1" (TokString "t1")))
                 gather_event) eq_refl eq_refl) as [_ H].
  apply (H (aggregate (run gather_store ann_registered_two_waiting)
              gather_event)).
  reflexivity.
Defined.

(** ** The public event page *)

(** [GET /events/:slug] needs no login.  The [rsvp_count] it shows is the
    active count, hence the [total] of the organizer's dashboard; and
    [is_owner] holds exactly for a logged-in requester who is the event's
    owner, never for an anonymous one or on an ownerless event. *)
Theorem getEvent_view s slug session_user v :
  getEvent s slug session_user = Ok v ->
  find_event_by_slug s slug = Some (view_event v) /\
  view_rsvp_count v = count_active s (ev_id (view_event v)) /\
  (forall user d, dashboard s slug (Some user) = Ok d ->
                  view_rsvp_count v = Z.of_nat (dash_total d)) /\
  (view_is_owner v = true <->
   exists user, session_user = Some user
                /\ ev_user_id (view_event v) = Some user).
Proof.
  unfold getEvent.
  destruct (find_event_by_slug s slug) as [event|] eqn:Hev; [|discriminate].
  intros H; inversion H; subst v; clear H. simpl.
  split; [reflexivity|]. split; [reflexivity|]. split.
  - intros user d Hd. apply dashboard_ok_inv in Hd as (event0 & Hev0 & ->).
    rewrite Hev in Hev0. inversion Hev0; subst event0.
    symmetry. apply aggregate_total.
  - destruct session_user as [user|], (ev_user_id event) as [owner|].
    + split.
      * intros E. apply String.eqb_eq in E. subst. now exists owner.
      * intros (u & Hu & Ho). inversion Hu; inversion Ho; subst.
        apply String.eqb_refl.
    + split; [discriminate|]. intros (u & _ & Ho). discriminate.
    + split; [discriminate|]. intros (u & Hu & _). discriminate.
    + split; [discriminate|]. intros (u & Hu & _). discriminate.
Qed.

Lemma getEvent_view_witness :
  let s := run gather_store ann_cancelled_bob_registered in
  view_rsvp_count (mkEventView gather_event 1 false) = count_active s "e2".
Proof.
  apply (getEvent_view (run gather_store ann_cancelled_bob_registered)
           "gather" None (mkEventView gather_event 1 false)).
  reflexivity.
Defined.

(** ** Organizer-only routes *)

Lemma not_owner_spec event user :
  not_owner event user = false <-> ev_user_id event = Some user.
Proof.
  unfold not_owner. destruct (ev_user_id event) as [owner|].
  - rewrite negb_false_iff, String.eqb_eq. split; congruence.
  - split; discriminate.
Qed.

(** Export, waitlist listing, edit and delete compare the event's owner with
    the logged-in user strictly: the first three succeed exactly for the
    owner, and everybody else is answered Forbidden on all four.  An event
    without owner therefore can be exported, edited or deleted by nobody,
    although its dashboard opens for every logged-in user. *)
Theorem organizer_routes_owner_only s slug user event :
  find_event_by_slug s slug = Some event ->
  (is_ok (exportCsv s slug (Some user)) = true
   <-> ev_user_id event = Some user) /\
  (is_ok (listWaitlist s slug (Some user)) = true
   <-> ev_user_id event = Some user) /\
  (fst (deleteEvent s (Some user) slug) = Done tt
   <-> ev_user_id event = Some user) /\
  (ev_user_id event <> Some user ->
   exportCsv s slug (Some user) = Err Forbidden /\
   listWaitlist s slug (Some user) = Err Forbidden /\
   deleteEvent s (Some user) slug = (Failed EvForbidden, s) /\
   forall body, updateEvent s (Some user) slug body = (Failed EvForbidden, s)) /\
  (ev_user_id event = None ->
   dashboard s slug (Some user) = Ok (aggregate s event)).
Proof.
  intros Hev.
  unfold exportCsv, listWaitlist, deleteEvent, updateEvent, dashboard.
  rewrite Hev.
  pose proof (not_owner_spec event user) as Hspec.
  destruct (not_owner event user) eqn:Hno; simpl.
  - assert (Hne : ev_user_id event <> Some user).
    { intros E. apply Hspec in E. discriminate. }
    repeat split; try discriminate; try contradiction; try tauto.
    intros ->. reflexivity.
  - assert (Heq : ev_user_id event = Some user) by now apply Hspec.
    repeat split; try tauto; try congruence.
Qed.

Lemma organizer_routes_owner_only_witness :
  exportCsv gather_store "picnic" (Some "u7") = Err Forbidden /\
  dashboard gather_store "picnic" (Some "u7")
  = Ok (aggregate gather_store legacy_event).
Proof.
  destruct (organizer_routes_owner_only gather_store "picnic" "u7"
              legacy_event eq_refl) as (_ & _ & _ & Hforbidden & Hdash).
  split.
  - apply Hforbidden. discriminate.
  - apply Hdash. reflexivity.
Defined.

(** ** The export and the waitlist listing *)









(** ** Event management *)

Lemma find_all_false {A} (p : A -> bool) (l : list A) :
  (forall x, In x l -> p x = false) -> find p l = None.
Proof.
  induction l as [|a l IH]; simpl; [reflexivity|]. intros H.
  rewrite (H a) by now left. apply IH. intros x Hx. apply H. now right.
Qed.

Lemma filter_all_false {A} (p : A -> bool) (l : list A) :
  (forall x, In x l -> p x = false) -> filter p l = [].
Proof.
  induction l as [|a l IH]; simpl; [reflexivity|]. intros H.
  rewrite (H a) by now left. apply IH. intros x Hx. apply H. now right.
Qed.

Lemma find_filter_kept {A} (p q : A -> bool) (l : list A) (a : A) :
  find p l = Some a -> q a = true -> find p (filter q l) = Some a.
Proof.
  induction l as [|x l IH]; simpl; [discriminate|].
  destruct (p x) eqn:Hp.
  - intros H Hq; inversion H; subst. now rewrite Hq; simpl; rewrite Hp.
  - intros H Hq. destruct (q x); simpl; [rewrite Hp|]; now apply IH.
Qed.

Lemma NoDup_map_filter {A B} (f : A -> B) (q : A -> bool) (l : list A) :
  NoDup (map f l) -> NoDup (map f (filter q l)).
Proof.
  induction l as [|x l IH]; simpl; [auto|]. intros H. inversion H; subst.
  destruct (q x); simpl; [|auto]. constructor; [|auto].
  intros Hin. apply H2. apply in_map_iff in Hin as (y & Hy & Hin).
  apply filter_In in Hin as [Hin _]. rewrite <- Hy. now apply in_map.
Qed.

Lemma NoDup_middle {A} (x : A) (l1 l2 : list A) :
  NoDup (l1 ++ l2) -> ~ In x (l1 ++ l2) -> NoDup (l1 ++ x :: l2).
Proof.
  induction l1 as [|a l1 IH]; simpl; intros Hnd Hx.
  - now constructor.
  - inversion Hnd; subst. constructor.
    + intros Hin. apply in_app_or in Hin as [Hin|[->|Hin]].
      * apply H1, in_or_app. now left.
      * apply Hx. now left.
      * apply H1, in_or_app. now right.
    + apply IH; [assumption|]. tauto.
Qed.

Lemma event_unique_by_id l (a b : Event) :
  NoDup (map ev_id l) -> In a l -> In b l -> ev_id a = ev_id b -> a = b.
Proof.
  induction l as [|c l IH]; simpl; [tauto|].
  intros Hnd [->|Ha] [->|Hb] E; try reflexivity.
  - inversion Hnd; subst. exfalso. apply H1. rewrite E. now apply in_map.
  - inversion Hnd; subst. exfalso. apply H1. rewrite <- E. now apply in_map.
  - inversion Hnd; subst. now apply IH.
Qed.

Lemma event_unique_by_slug l (a b : Event) :
  NoDup (map ev_slug l) -> In a l -> In b l -> ev_slug a = ev_slug b -> a = b.
Proof.
  induction l as [|c l IH]; simpl; [tauto|].
  intros Hnd [->|Ha] [->|Hb] E; try reflexivity.
  - inversion Hnd; subst. exfalso. apply H1. rewrite E. now apply in_map.
  - inversion Hnd; subst. exfalso. apply H1. rewrite <- E. now apply in_map.
  - inversion Hnd; subst. now apply IH.
Qed.

(** With unique ids, the update rewrites the one row of the event. *)
Lemma apply_form_split l event body newSlug :
  NoDup (map ev_id l) -> In event l ->
  exists l1 l2,
    l = (l1 ++ event :: l2)%list /\
    map (apply_form event body newSlug) l
    = (l1 ++ apply_form event body newSlug event :: l2)%list /\
    ~ In (ev_id event) (map ev_id (l1 ++ l2)).
Proof.
  intros Hnd Hin. apply in_split in Hin as (l1 & l2 & ->). exists l1, l2.
  rewrite map_app in Hnd. simpl in Hnd.
  pose proof (NoDup_remove_2 _ _ _ Hnd) as Hout.
  rewrite <- map_app in Hout.
  split; [reflexivity|]. split; [|exact Hout].
  assert (Hfix : forall l', ~ In (ev_id event) (map ev_id l') ->
                            map (apply_form event body newSlug) l' = l').
  { induction l' as [|x l' IH]; simpl; [reflexivity|]. intros H.
    rewrite IH by tauto. unfold apply_form.
    rewrite eqb_neq_false; [reflexivity|]. intros E. apply H. now left. }
  rewrite map_app. simpl. rewrite !Hfix; [reflexivity| |];
    intros H; apply Hout; rewrite map_app; apply in_or_app; tauto.
Qed.

Lemma updateEvent_done_inv s user slug body newSlug s' :
  updateEvent s (Some user) slug body = (Done newSlug, s') ->
  exists event,
    find_event_by_slug s slug = Some event /\
    ev_user_id event = Some user /\
    s' = with_events s (map (apply_form event body newSlug) (events s)) /\
    (newSlug = slug \/
     forall e, In e (events s) -> ev_slug e = newSlug ->
               ev_id e = ev_id event).
Proof.
  unfold updateEvent.
  destruct (find_event_by_slug s slug) as [event|]; [|discriminate].
  destruct (not_owner event user) eqn:Hno; [discriminate|].
  apply not_owner_spec in Hno. intros H. exists event.
  split; [reflexivity|]. split; [assumption|].
  destruct (form_custom_slug body) as [custom|].
  - destruct (_ && _).
    + destruct (find _ (events s)) eqn:Hf; [discriminate|].
      inversion H; subst. split; [reflexivity|]. right.
      intros e Hin Hslug. apply (find_none _ _ Hf) in Hin.
      apply andb_false_iff in Hin as [Hin|Hin].
      * rewrite Hslug, String.eqb_refl in Hin. discriminate.
      * apply negb_false_iff in Hin. now apply String.eqb_eq.
    + inversion H; subst. split; [reflexivity|now left].
  - inversion H; subst. split; [reflexivity|now left].
Qed.

(** A successful edit keeps the event's id and owner and touches no
    registration or waitlist entry; capacity 0 (or none) keeps the stored
    capacity and an empty status keeps the stored status.  In a store with
    unique event ids and slugs the event answers under the returned slug
    afterwards, and if its new status is draft or cancelled, registration
    under that slug is refused with EventUnavailable while all attendees
    stay. *)
Theorem updateEvent_effect s user slug body newSlug s' :
  events_unique s ->
  updateEvent s (Some user) slug body = (Done newSlug, s') ->
  exists event e',
    find_event_by_slug s slug = Some event /\
    find_event_by_slug s' newSlug = Some e' /\
    ev_id e' = ev_id event /\ ev_user_id e' = ev_user_id event /\
    ((form_capacity body == 0)%Q -> ev_capacity e' = ev_capacity event) /\
    (~ (form_capacity body == 0)%Q -> ev_capacity e' = form_capacity body) /\
    (form_status body = EmptyString -> ev_status e' = ev_status event) /\
    (form_status body <> EmptyString -> ev_status e' = form_status body) /\
    attendees s' = attendees s /\ waitlist s' = waitlist s /\
    (forall name email uuid token now,
       name <> EmptyString -> email <> EmptyString ->
       ev_status e' = "draft" \/ ev_status e' = "cancelled" ->
       register s' newSlug name email uuid token now
       = (Err EventUnavailable, s')).
Proof.
  intros [Hids Hslugs] Hupd.
  apply updateEvent_done_inv in Hupd as (event & Hev & Hown & -> & Hnew).
  pose proof (find_some _ _ Hev) as [Hin Hslug]. apply String.eqb_eq in Hslug.
  destruct (apply_form_split _ event body newSlug Hids Hin)
    as (l1 & l2 & Hl & Hmap & Hout).
  set (e' := apply_form event body newSlug event).
  assert (He' : e' = mkEvent (ev_id event)
                       (or_else (form_title body) (ev_title event))
                       (or_else_number (form_capacity body) (ev_capacity event))
                       (or_else (form_status body) (ev_status event))
                       (ev_user_id event) newSlug).
  { unfold e', apply_form. now rewrite String.eqb_refl. }
  assert (Hfind : find_event_by_slug
                    (with_events s
                       (map (apply_form event body newSlug) (events s)))
                    newSlug = Some e').
  { unfold find_event_by_slug. simpl. rewrite Hmap, find_append.
    assert (Hothers : forall x, In x (l1 ++ l2) -> (ev_slug x =? newSlug) = false).
    { intros x Hx. apply String.eqb_neq. intros Ex.
      assert (Hxin : In x (events s)).
      { rewrite Hl. apply in_app_or in Hx. apply in_or_app. simpl. tauto. }
      apply Hout. apply in_map_iff. exists x. split; [|assumption].
      destruct Hnew as [->|Hnew]; [|now apply Hnew].
      f_equal. eapply event_unique_by_slug; eauto. congruence. }
    rewrite (find_all_false _ l1)
      by (intros x Hx; apply Hothers, in_or_app; now left).
    simpl. fold e'. rewrite He'. simpl. now rewrite String.eqb_refl. }
  exists event, e'. split; [assumption|]. split; [assumption|].
  rewrite He'. simpl. unfold or_else_number, or_else, truthy.
  split; [reflexivity|]. split; [reflexivity|].
  split; [intros H; apply Qeq_bool_iff in H; now rewrite H|].
  split.
  { intros H. destruct (Qeq_bool (form_capacity body) 0) eqn:E;
      [|reflexivity].
    apply Qeq_bool_iff in E. contradiction. }
  split; [intros ->; reflexivity|].
  split; [intros H; now rewrite (eqb_neq_false _ _ H)|].
  split; [reflexivity|]. split; [reflexivity|].
  intros name email uuid token now Hn Hem Hst.
  unfold register. rewrite (truthy_true _ Hn), (truthy_true _ Hem), Hfind.
  simpl. rewrite He'. simpl. fold (or_else (form_status body) (ev_status event)).
  fold (truthy (form_status body)) in Hst.
  fold (or_else (form_status body) (ev_status event)) in Hst.
  destruct Hst as [->| ->]; reflexivity.
Qed.

Lemma updateEvent_effect_witness :
  let s := snd (register gather_store "gather" "Ann" "ann@example.org"
                  "a1" "t1" 1) in
  let s' := snd (updateEvent s (Some "u1") "gather" back_to_draft) in
  exists event e',
    find_event_by_slug s "gather" = Some event /\
    find_event_by_slug s' "gather" = Some e' /\
    ev_capacity e' = ev_capacity event /\
    attendees s' = attendees s.
Proof.
  destruct (updateEvent_effect
              (snd (register gather_store "gather" "Ann" "ann@example.org"
                      "a1" "t1" 1))
              "u1" "gather" back_to_draft "gather"
              (snd (updateEvent
                      (snd (register gather_store "gather" "Ann"
                              "ann@example.org" "a1" "t1" 1))
                      (Some "u1") "gather" back_to_draft)))
    as (event & e' & H1 & H2 & _ & _ & Hcap & _ & _ & _ & Hatt & _).
  - split; repeat constructor; simpl; intuition discriminate.
  - reflexivity.
  - exists event, e'. split; [exact H1|]. split; [exact H2|].
    split; [apply Hcap; reflexivity|exact Hatt].
Defined.

(** Edits and deletions keep the ids and the slugs of the stored events
    unique, by the routes' own checks; so does a creation, provided the
    generated id, and the generated slug when no custom slug is given, are
    unused.  Ledger operations do not touch the events. *)
Theorem event_keys_stay_unique s r :
  events_unique s -> fresh_event s r -> events_unique (serve s r).
Proof.
  intros [Hids Hslugs] Hfresh. unfold events_unique.
  destruct r as [o|u body uuid suffix|u slug body|u slug]; simpl.
  - now rewrite step_events.
  - destruct Hfresh as [Hid Hgen]. unfold createEvent.
    destruct u as [user|]; [|now split].
    destruct (_ || _); [now split|].
    assert (Hinsert : forall slug,
              ~ In slug (map ev_slug (events s)) ->
              NoDup (map ev_id
                       (events s ++
                        [mkEvent uuid (form_title body)
                           (or_else_number (form_capacity body) 50)
                           (or_else (form_status body) "published")
                           (Some user) slug])) /\
              NoDup (map ev_slug
                       (events s ++
                        [mkEvent uuid (form_title body)
                           (or_else_number (form_capacity body) 50)
                           (or_else (form_status body) "published")
                           (Some user) slug]))).
    { intros slug Hslug. rewrite !map_app. simpl.
      split; now apply NoDup_snoc. }
    unfold uses_custom_slug in Hgen.
    destruct (form_custom_slug body) as [custom|].
    + destruct (truthy custom && truthy (trim custom)).
      * destruct (find_event_by_slug s (clean_slug custom)) eqn:Hf;
          [now split|]. simpl. apply Hinsert.
        intros Hin. apply in_map_iff in Hin as (e & He & Hin).
        unfold find_event_by_slug in Hf. apply (find_none _ _ Hf) in Hin.
        rewrite He, String.eqb_refl in Hin. discriminate.
      * simpl. apply Hinsert. now apply Hgen.
    + simpl. apply Hinsert. now apply Hgen.
  - destruct (updateEvent s u slug body) as [[newSlug|err] s'] eqn:Hupd.
    + destruct u as [user|];
        [|unfold updateEvent in Hupd; discriminate].
      apply updateEvent_done_inv in Hupd as (event & Hev & _ & -> & Hnew).
      pose proof (find_some _ _ Hev) as [Hin Hslug].
      apply String.eqb_eq in Hslug.
      destruct (apply_form_split _ event body newSlug Hids Hin)
        as (l1 & l2 & Hl & Hmap & Hout).
      simpl. rewrite Hmap. rewrite Hl in Hids, Hslugs.
      rewrite map_app in Hids, Hslugs. simpl in Hids, Hslugs.
      rewrite !map_app. simpl.
      unfold apply_form at 1 2. rewrite String.eqb_refl. simpl.
      split; [assumption|].
      apply NoDup_middle; [eapply NoDup_remove_1; eassumption|].
      rewrite <- map_app. intros Hin'.
      apply in_map_iff in Hin' as (x & Hx & Hxin).
      assert (Hxs : In x (events s)).
      { rewrite Hl. apply in_app_or in Hxin. apply in_or_app. simpl. tauto. }
      destruct Hnew as [->|Hnew].
      * apply NoDup_remove_2 in Hslugs. apply Hslugs.
        rewrite <- map_app. apply in_map_iff. exists x.
        split; [congruence|assumption].
      * apply Hout. apply in_map_iff. exists x.
        split; [now apply Hnew|assumption].
    + assert (s' = s); [|now subst].
      unfold updateEvent in Hupd. destruct u as [user|]; [|congruence].
      destruct (find_event_by_slug s slug); [|congruence].
      destruct (not_owner _ _); [congruence|].
      destruct (form_custom_slug body); [|congruence].
      destruct (_ && _); [|congruence].
      destruct (find _ (events s)); congruence.
  - unfold deleteEvent. destruct u as [user|]; [|now split].
    destruct (find_event_by_slug s slug); [|now split].
    destruct (not_owner _ _); [now split|]. simpl.
    split; now apply NoDup_map_filter.
Qed.

Lemma event_keys_stay_unique_witness :
  events_unique
    (serve gather_store
       (UpdateEvent (Some "u1") "gather"
          (mkEventForm EmptyString EmptyString EmptyString EmptyString
             EmptyString 0 EmptyString (Some "Gather Night")))).
Proof.
  apply event_keys_stay_unique.
  - split; repeat constructor; simpl; intuition discriminate.
  - exact I.
Defined.

(** ** Foreign keys *)

Lemma step_attendee_event s o a :
  (forall x, In x (attendees s) ->
             exists e, In e (events s) /\ ev_id e = att_event_id x) ->
  In a (attendees (step s o)) ->
  exists e, In e (events s) /\ ev_id e = att_event_id a.
Proof.
  intros Href.
  assert (Hupd : forall id f,
            (forall x, att_event_id (f x) = att_event_id x) ->
            In a (update_attendee id f (attendees s)) ->
            exists e, In e (events s) /\ ev_id e = att_event_id a).
  { intros id f Hf Hin. unfold update_attendee in Hin.
    apply in_map_iff in Hin as (x & Hx & Hin).
    destruct (Href x Hin) as (e & He & Hid). exists e. split; [assumption|].
    rewrite Hid, <- Hx. destruct (att_id x =? id); [now rewrite Hf|reflexivity]. }
  destruct o as [slug name email uuid token now|id tok
                 |slug name email uuid now|id now|q now]; simpl.
  - unfold register. destruct (_ || _); [apply Href|].
    destruct (find_event_by_slug s slug) as [event|] eqn:Hev; [|apply Href].
    destruct (_ =? "cancelled"); [apply Href|].
    destruct (_ =? "draft"); [apply Href|].
    destruct (find_registration _ _ _).
    + destruct (negb _); [apply Href|]. simpl. now apply Hupd.
    + destruct (at_capacity _ _); [apply Href|]. simpl. intros Hin.
      apply in_app_or in Hin as [Hin|[<-|[]]]; [now apply Href|].
      exists event. split; [|reflexivity]. now apply find_some in Hev.
  - unfold cancel. destruct (find_attendee s id); [|apply Href].
    destruct (token_differs _ _); [apply Href|]. simpl. now apply Hupd.
  - unfold joinWaitlist. destruct (_ || _); [apply Href|].
    destruct (find_event_by_slug s slug); [|apply Href].
    destruct (find_waitlisted _ _ _); apply Href.
  - unfold checkIn. destruct (find_attendee s id); [|apply Href].
    destruct (att_checked_in _); [apply Href|]. simpl. now apply Hupd.
  - unfold checkInByQrPayload. destruct q as [| |[qid|]]; try apply Href.
    destruct (negb _); [apply Href|].
    destruct (join_event _ _ _) as [[b t]|]; [|apply Href].
    destruct (att_cancelled b); [apply Href|]. simpl.
    destruct (att_checked_in b); [apply Href|]. simpl. now apply Hupd.
Qed.

Lemma step_waitlist_event s o w :
  (forall x, In x (waitlist s) ->
             exists e, In e (events s) /\ ev_id e = wl_event_id x) ->
  In w (waitlist (step s o)) ->
  exists e, In e (events s) /\ ev_id e = wl_event_id w.
Proof.
  intros Href.
  destruct o as [slug name email uuid token now|id tok
                 |slug name email uuid now|id now|q now]; simpl.
  - unfold register. destruct (_ || _); [apply Href|].
    destruct (find_event_by_slug s slug); [|apply Href].
    destruct (_ =? "cancelled"); [apply Href|].
    destruct (_ =? "draft"); [apply Href|].
    destruct (find_registration _ _ _).
    + destruct (negb _); apply Href.
    + destruct (at_capacity _ _); apply Href.
  - unfold cancel. destruct (find_attendee s id) as [a|]; [|apply Href].
    destruct (token_differs _ _); [apply Href|]. simpl.
    unfold promote. destruct (next_in_line _ _) as [n|]; [|apply Href].
    unfold mark_notified. intros Hin.
    apply in_map_iff in Hin as (x & Hx & Hin).
    destruct (Href x Hin) as (e & He & Hid). exists e. split; [assumption|].
    rewrite Hid, <- Hx. now destruct (wl_id x =? wl_id n).
  - unfold joinWaitlist. destruct (_ || _); [apply Href|].
    destruct (find_event_by_slug s slug) as [event|] eqn:Hev; [|apply Href].
    destruct (find_waitlisted _ _ _); [apply Href|]. simpl. intros Hin.
    apply in_app_or in Hin as [Hin|[<-|[]]]; [now apply Href|].
    exists event. split; [|reflexivity]. now apply find_some in Hev.
  - unfold checkIn. destruct (find_attendee s id); [|apply Href].
    destruct (att_checked_in _); apply Href.
  - unfold checkInByQrPayload. destruct q as [| |[qid|]]; try apply Href.
    destruct (negb _); [apply Href|].
    destruct (join_event _ _ _) as [[b t]|]; [|apply Href].
    destruct (att_cancelled b); [apply Href|]. simpl.
    destruct (att_checked_in b); apply Href.
Qed.

Lemma serve_references s r : references_ok s -> references_ok (serve s r).
Proof.
  intros [Hatt Hwl].
  destruct r as [o|u body uuid suffix|u slug body|u slug]; simpl.
  - split.
    + intros a Hin. rewrite step_events. now apply (step_attendee_event s o).
    + intros w Hin. rewrite step_events. now apply (step_waitlist_event s o).
  - assert (Hgrow : forall new,
              references_ok (with_events s (events s ++ [new]))).
    { intros new. split; simpl.
      - intros a Hin. destruct (Hatt a Hin) as (e & He & Hid).
        exists e. split; [apply in_or_app; now left|assumption].
      - intros w Hin. destruct (Hwl w Hin) as (e & He & Hid).
        exists e. split; [apply in_or_app; now left|assumption]. }
    unfold createEvent. destruct u as [user|]; [|now split].
    destruct (_ || _); [now split|].
    destruct (form_custom_slug body) as [custom|]; [|apply Hgrow].
    destruct (_ && _); [|apply Hgrow].
    destruct (find_event_by_slug s _); [now split|apply Hgrow].
  - assert (Hmap : forall event newSlug,
              references_ok
                (with_events s
                   (map (apply_form event body newSlug) (events s)))).
    { intros event newSlug. split; simpl.
      - intros a Hin. destruct (Hatt a Hin) as (e & He & Hid).
        exists (apply_form event body newSlug e).
        split; [now apply in_map|]. unfold apply_form.
        now destruct (ev_id e =? ev_id event).
      - intros w Hin. destruct (Hwl w Hin) as (e & He & Hid).
        exists (apply_form event body newSlug e).
        split; [now apply in_map|]. unfold apply_form.
        now destruct (ev_id e =? ev_id event). }
    unfold updateEvent. destruct u as [user|]; [|now split].
    destruct (find_event_by_slug s slug) as [event|]; [|now split].
    destruct (not_owner _ _); [now split|].
    destruct (form_custom_slug body) as [custom|]; [|apply Hmap].
    destruct (_ && _); [|apply Hmap].
    destruct (find _ (events s)); [now split|apply Hmap].
  - unfold deleteEvent. destruct u as [user|]; [|now split].
    destruct (find_event_by_slug s slug) as [event|]; [|now split].
    destruct (not_owner _ _); [now split|]. split; simpl.
    + intros a Hin. apply filter_In in Hin as [Hin Hne].
      destruct (Hatt a Hin) as (e & He & Hid). exists e.
      split; [|assumption]. apply filter_In. split; [assumption|].
      now rewrite Hid.
    + intros w Hin. apply filter_In in Hin as [Hin Hne].
      destruct (Hwl w Hin) as (e & He & Hid). exists e.
      split; [|assumption]. apply filter_In. split; [assumption|].
      now rewrite Hid.
Qed.

(** Whatever requests are served, ledger operations and event creations,
    edits and deletions alike, every attendee and every waitlist entry keeps
    pointing to a stored event: registrations are made for stored events only,
    edits keep ids, and a deletion takes the event's rows with it. *)
Theorem references_kept rs : forall s,
  references_ok s -> references_ok (serve_all s rs).
Proof.
  induction rs as [|r rs IH]; intros s H; [exact H|].
  change (serve_all s (r :: rs)) with (serve_all (serve s r) rs).
  now apply IH, serve_references.
Qed.

Lemma references_kept_witness :
  references_ok
    (serve_all gather_store
       [ Ledger (Register "gather" "Ann" "ann@example.org" "a1" "t1" 1);
         Ledger (JoinWaitlist "gather" "Bob" "bob@example.org" "w1" 3);
         DeleteEvent (Some "u1") "gather" ]).
Proof.
  apply references_kept. split; intros x [].
Defined.

(** ** Deleting an event *)

(** A successful deletion, in a store with unique event ids and slugs,
    leaves no trace of the event: its slug resolves to nothing, and no
    attendee or waitlist entry of the event remains, so its attendees can no
    longer be looked up by id.  Attendees of other events are found as
    before. *)
Theorem deleteEvent_cascade s user slug s' :
  events_unique s ->
  NoDup (map att_id (attendees s)) ->
  deleteEvent s (Some user) slug = (Done tt, s') ->
  exists event,
    find_event_by_slug s slug = Some event /\
    find_event_by_slug s' slug = None /\
    find_event_by_id s' (ev_id event) = None /\
    (forall a, In a (attendees s') -> att_event_id a <> ev_id event) /\
    (forall w, In w (waitlist s') -> wl_event_id w <> ev_id event) /\
    (forall id a, find_attendee s id = Some a ->
       if att_event_id a =? ev_id event
       then find_attendee s' id = None
       else find_attendee s' id = Some a).
Proof.
  intros [Hids Hslugs] Hatt. unfold deleteEvent.
  destruct (find_event_by_slug s slug) as [event|] eqn:Hev; [|discriminate].
  destruct (not_owner _ _); [discriminate|].
  intros H; inversion H; subst s'; clear H.
  pose proof (find_some _ _ Hev) as [Hin Hslug]. apply String.eqb_eq in Hslug.
  exists event. split; [reflexivity|].
  unfold find_event_by_slug, find_event_by_id, find_attendee. simpl.
  split; [|split; [|split; [|split]]].
  - apply find_all_false. intros x Hx. apply filter_In in Hx as [Hx Hne].
    apply String.eqb_neq. intros E. apply negb_true_iff, String.eqb_neq in Hne.
    apply Hne. f_equal. eapply event_unique_by_slug; eauto. congruence.
  - apply find_all_false. intros x Hx. apply filter_In in Hx as [_ Hne].
    now apply negb_true_iff in Hne.
  - intros a Ha. apply filter_In in Ha as [_ Hne].
    now apply negb_true_iff, String.eqb_neq in Hne.
  - intros w Hw. apply filter_In in Hw as [_ Hne].
    now apply negb_true_iff, String.eqb_neq in Hne.
  - intros id a Hfind.
    destruct (String.eqb_spec (att_event_id a) (ev_id event)) as [E|E].
    + apply find_all_false. intros x Hx. apply filter_In in Hx as [Hx Hne].
      apply String.eqb_neq. intros Eid.
      apply find_some in Hfind as [Ha Hida]. apply String.eqb_eq in Hida.
      assert (x = a) by (eapply attendee_unique_by_id; eauto; congruence).
      subst x. rewrite E, String.eqb_refl in Hne. discriminate.
    + apply find_filter_kept; [assumption|].
      now apply negb_true_iff, String.eqb_neq.
Qed.

Lemma deleteEvent_cascade_witness :
  let s := snd (register gather_store "gather" "Ann" "ann@example.org"
                  "a1" "t1" 1) in
  let s' := snd (deleteEvent s (Some "u1") "gather") in
  find_event_by_slug s' "gather" = None /\ find_attendee s' "a1" = None.
Proof.
  destruct (deleteEvent_cascade
              (snd (register gather_store "gather" "Ann" "ann@example.org"
                      "a1" "t1" 1))
              "u1" "gather"
              (snd (deleteEvent
                      (snd (register gather_store "gather" "Ann"
                              "ann@example.org" "a1" "t1" 1))
                      (Some "u1") "gather")))
    as (event & Hev & Hgone & _ & _ & _ & Hrows).
  - split; repeat constructor; simpl; intuition discriminate.
  - repeat constructor; simpl; tauto.
  - reflexivity.
  - split; [exact Hgone|].
    inversion Hev; subst event.
    exact (Hrows "a1"
             (new_attendee "a1" "e2" "Ann" "ann@example.org"
                (mkQr "a1" "e2" "Ann" "ann@example.org") "t1" 1) eq_refl).
Defined.

(** ** Creating an event *)

Lemma createEvent_done_inv s user body uuid suffix id slug s' :
  createEvent s (Some user) body uuid suffix = (Done (id, slug), s') ->
  id = uuid /\
  form_title body <> EmptyString /\
  s' = with_events s
         (events s ++
          [mkEvent uuid (form_title body) (or_else_number (form_capacity body) 50)
             (or_else (form_status body) "published") (Some user) slug]) /\
  (uses_custom_slug body = true ->
   exists custom, form_custom_slug body = Some custom
                  /\ slug = clean_slug custom
                  /\ find_event_by_slug s slug = None) /\
  (uses_custom_slug body = false ->
   slug = generateSlug (form_title body) suffix).
Proof.
  unfold createEvent, uses_custom_slug.
  destruct (truthy (form_title body)) eqn:Ht; [|discriminate].
  assert (Htitle : form_title body <> EmptyString).
  { intros E. rewrite E in Ht. discriminate. }
  destruct (_ || _); [discriminate|].
  destruct (form_custom_slug body) as [custom|].
  - destruct (truthy custom && truthy (trim custom)).
    + destruct (find_event_by_slug s (clean_slug custom)) eqn:Hf;
        [discriminate|].
      intros H; inversion H; subst. repeat split; try discriminate; auto.
      intros _. now exists custom.
    + intros H; inversion H; subst. repeat split; try discriminate; auto.
  - intros H; inversion H; subst. repeat split; try discriminate; auto.
Qed.

(** The user who created an event is its owner: under the slug the route
    answered (a slug no event had before), the creator's dashboard, export and
    waitlist listing open, and every other user is refused the export and the
    listing.  Capacity defaults to 50 and status to published. *)
Theorem createEvent_then_manage s user body uuid suffix id slug s' :
  createEvent s (Some user) body uuid suffix = (Done (id, slug), s') ->
  find_event_by_slug s slug = None ->
  exists event,
    find_event_by_slug s' slug = Some event /\
    ev_id event = id /\ ev_user_id event = Some user /\
    ((form_capacity body == 0)%Q -> ev_capacity event = 50%Q) /\
    (form_status body = EmptyString -> ev_status event = "published") /\
    attendees s' = attendees s /\
    dashboard s' slug (Some user) = Ok (aggregate s' event) /\
    is_ok (exportCsv s' slug (Some user)) = true /\
    is_ok (listWaitlist s' slug (Some user)) = true /\
    (forall other, other <> user ->
       exportCsv s' slug (Some other) = Err Forbidden /\
       listWaitlist s' slug (Some other) = Err Forbidden).
Proof.
  intros Hcreate Hnew.
  apply createEvent_done_inv in Hcreate as (-> & _ & -> & _).
  eexists. split.
  { unfold find_event_by_slug in *. simpl. rewrite find_append, Hnew. simpl.
    now rewrite String.eqb_refl. }
  simpl. split; [reflexivity|]. split; [reflexivity|].
  split.
  { intros H. apply Qeq_bool_iff in H. unfold or_else_number. now rewrite H. }
  split; [intros ->; reflexivity|].
  split; [reflexivity|].
  assert (Hfind : find_event_by_slug
                    (with_events s
                       (events s ++
                        [mkEvent uuid (form_title body)
                           (or_else_number (form_capacity body) 50)
                           (or_else (form_status body) "published")
                           (Some user) slug])) slug
                  = Some (mkEvent uuid (form_title body)
                            (or_else_number (form_capacity body) 50)
                            (or_else (form_status body) "published")
                            (Some user) slug)).
  { unfold find_event_by_slug in *. simpl. rewrite find_append, Hnew. simpl.
    now rewrite String.eqb_refl. }
  unfold dashboard, exportCsv, listWaitlist. rewrite Hfind.
  unfold not_owner. simpl. rewrite String.eqb_refl, andb_false_r. simpl.
  do 3 (split; [reflexivity|]).
  intros other Hne.
  rewrite (eqb_neq_false user other) by congruence. now split.
Qed.

Lemma createEvent_then_manage_witness :
  let r := createEvent gather_store (Some "u5") picnic_form "e9" "k3x9ab" in
  exists event,
    find_event_by_slug (snd r) "summer-picnic-2025-k3x9ab" = Some event /\
    ev_user_id event = Some "u5".
Proof.
  destruct (createEvent_then_manage gather_store "u5" picnic_form "e9"
              "k3x9ab" "e9" "summer-picnic-2025-k3x9ab"
              (snd (createEvent gather_store (Some "u5") picnic_form "e9"
                      "k3x9ab")))
    as (event & H1 & _ & H3 & _); [reflexivity|reflexivity|].
  exists event. now split.
Defined.

(** An event created with the defaults is open at once: in a store whose
    rows point to stored events, and with an unused id, the first
    registration under the answered slug succeeds. *)
Theorem createEvent_then_register
    s user body uuid suffix id slug s' name email uuid' token now :
  createEvent s (Some user) body uuid suffix = (Done (id, slug), s') ->
  find_event_by_slug s slug = None ->
  references_ok s ->
  ~ In uuid (map ev_id (events s)) ->
  (form_capacity body == 0)%Q -> form_status body = EmptyString ->
  name <> EmptyString -> email <> EmptyString ->
  exists reg,
    fst (register s' slug name email uuid' token now) = Ok reg /\
    reg_id reg = uuid' /\ reg_reactivated reg = false /\
    eventId (reg_qr_code reg) = id /\
    count_active (snd (register s' slug name email uuid' token now)) id = 1%Z.
Proof.
  intros Hcreate Hnew [Hrefs _] Hfresh Hcap Hst Hn He.
  apply createEvent_done_inv in Hcreate as (-> & _ & -> & _).
  apply Qeq_bool_iff in Hcap.
  rewrite Hst. unfold or_else_number, or_else. rewrite Hcap. simpl.
  set (event := mkEvent uuid (form_title body) 50 "published" (Some user) slug).
  assert (Hfind : find_event_by_slug
                    (with_events s (events s ++ [event])) slug = Some event).
  { unfold find_event_by_slug in *. simpl. rewrite find_append, Hnew. simpl.
    now rewrite String.eqb_refl. }
  assert (Hnone : forall a, In a (attendees s) ->
                            (att_event_id a =? uuid) = false).
  { intros a Ha. apply String.eqb_neq. intros E.
    destruct (Hrefs a Ha) as (e & Hin & Hid). apply Hfresh.
    apply in_map_iff. exists e. split; [congruence|assumption]. }
  rewrite (register_available _ _ _ _ _ _ _ event Hn He Hfind)
    by discriminate.
  assert (Hreg : find_registration (with_events s (events s ++ [event]))
                   (ev_id event) email = None).
  { unfold find_registration. simpl. apply find_all_false.
    intros a Ha. unfold same_registration. now rewrite (Hnone a Ha). }
  assert (Hcount : count_active (with_events s (events s ++ [event]))
                     (ev_id event) = 0%Z).
  { unfold count_active. simpl. rewrite filter_all_false; [reflexivity|].
    intros a Ha. unfold is_active. now rewrite (Hnone a Ha). }
  rewrite Hreg. unfold at_capacity. rewrite Hcount. simpl.
  eexists. split; [reflexivity|]. simpl. do 3 (split; [reflexivity|]).
  unfold count_active. simpl. rewrite filter_app, length_app.
  rewrite filter_all_false
    by (intros a Ha; unfold is_active; now rewrite (Hnone a Ha)).
  simpl. unfold is_active. simpl. now rewrite String.eqb_refl.
Qed.

Lemma createEvent_then_register_witness :
  let s' := snd (createEvent gather_store (Some "u5") picnic_form "e9"
                   "k3x9ab") in
  exists reg,
    fst (register s' "summer-picnic-2025-k3x9ab" "Ann" "ann@example.org"
           "a1" "t1" 1) = Ok reg /\
    reg_id reg = "a1".
Proof.
  destruct (createEvent_then_register gather_store "u5" picnic_form "e9"
              "k3x9ab" "e9" "summer-picnic-2025-k3x9ab"
              (snd (createEvent gather_store (Some "u5") picnic_form "e9"
                      "k3x9ab"))
              "Ann" "ann@example.org" "a1" "t1" 1)
    as (reg & H1 & H2 & _); try reflexivity; try discriminate.
  - split; intros x [].
  - simpl. intuition discriminate.
  - exists reg. now split.
Defined.

(** ** Slugs *)

Lemma is_dash_spec c : is_dash c = true <-> c = "-"%char.
Proof. unfold is_dash. apply Ascii.eqb_eq. Qed.

Lemma custom_slug_char_plain c :
  custom_slug_char c = true ->
  is_space c = false /\ toLowerCase_char c = c.
Proof.
  destruct c as [[] [] [] [] [] [] [] []]; vm_compute;
    intros H; try discriminate H; split; reflexivity.
Qed.

Lemma slug_char_no_dash c : slug_char c = true -> is_dash c = false.
Proof.
  destruct c as [[] [] [] [] [] [] [] []]; vm_compute;
    intros H; try discriminate H; reflexivity.
Qed.

Lemma replace_runs_chars keep b s :
  all_chars (fun c => keep c || is_dash c) (replace_runs keep b s) = true.
Proof.
  revert b. induction s as [|c s IH]; intros b; simpl; [reflexivity|].
  destruct (keep c) eqn:Hk; simpl.
  - now rewrite Hk, IH.
  - destruct b; simpl; [apply IH|]. now rewrite orb_true_r, IH.
Qed.

Lemma all_chars_impl (p q : ascii -> bool) s :
  (forall c, p c = true -> q c = true) ->
  all_chars p s = true -> all_chars q s = true.
Proof.
  intros Hpq. induction s as [|c s IH]; simpl; [reflexivity|].
  intros H. apply andb_prop in H as [Hc Hs]. now rewrite (Hpq c Hc), IH.
Qed.

Lemma strip_leading_dash_chars p s :
  all_chars p s = true -> all_chars p (strip_leading_dash s) = true.
Proof.
  destruct s as [|c s]; simpl; [reflexivity|]. intros H.
  destruct (is_dash c); [|exact H]. now apply andb_prop in H.
Qed.

Lemma all_chars_cons p c s :
  all_chars p (String c s) = p c && all_chars p s.
Proof. reflexivity. Qed.

Lemma strip_trailing_dash_cons c d s :
  strip_trailing_dash (String c (String d s))
  = String c (strip_trailing_dash (String d s)).
Proof. reflexivity. Qed.

Lemma strip_trailing_dash_chars p s :
  all_chars p s = true -> all_chars p (strip_trailing_dash s) = true.
Proof.
  induction s as [|c s IH]; [reflexivity|]. rewrite all_chars_cons.
  intros H. apply andb_prop in H as [Hc Hs].
  destruct s as [|d s'].
  - simpl. destruct (is_dash c); simpl; [reflexivity|now rewrite Hc].
  - now rewrite strip_trailing_dash_cons, all_chars_cons, Hc, IH.
Qed.

Lemma substring_chars p n s :
  all_chars p s = true -> all_chars p (substring 0 n s) = true.
Proof.
  revert s. induction n as [|n IH]; intros [|c s]; simpl; try reflexivity.
  intros H. apply andb_prop in H as [Hc Hs]. now rewrite Hc, IH.
Qed.

Lemma substring_length n s : String.length (substring 0 n s) <= n.
Proof.
  revert s. induction n as [|n IH]; intros [|c s]; simpl; try lia.
  specialize (IH s). lia.
Qed.

(** Whatever the organizer types as custom slug, the slug that is looked up
    and stored consists of lower-case letters, digits and dashes only. *)
Theorem clean_slug_charset custom_slug :
  all_chars custom_slug_char (clean_slug custom_slug) = true.
Proof.
  unfold clean_slug, strip_edge_dashes.
  apply strip_trailing_dash_chars, strip_leading_dash_chars.
  eapply all_chars_impl; [|apply replace_runs_chars].
  intros c. unfold custom_slug_char. now destruct (slug_char c), (is_dash c).
Qed.

Lemma trimEnd_plain s :
  all_chars (fun c => negb (is_space c)) s = true -> trimEnd s = s.
Proof.
  induction s as [|c s IH]; simpl; [reflexivity|]. intros H.
  apply andb_prop in H as [Hc Hs]. rewrite (IH Hs).
  apply negb_true_iff in Hc. rewrite Hc. now destruct s.
Qed.

Lemma toLowerCase_plain s :
  all_chars custom_slug_char s = true -> toLowerCase s = s.
Proof.
  induction s as [|c s IH]; simpl; [reflexivity|]. intros H.
  apply andb_prop in H as [Hc Hs].
  now rewrite (proj2 (custom_slug_char_plain c Hc)), IH.
Qed.

Lemma replace_runs_plain keep s :
  all_chars keep s = true -> replace_runs keep false s = s.
Proof.
  induction s as [|c s IH]; simpl; [reflexivity|]. intros H.
  apply andb_prop in H as [Hc Hs]. now rewrite Hc, IH.
Qed.

Lemma strip_trailing_dash_plain s :
  last_char s <> Some "-"%char -> strip_trailing_dash s = s.
Proof.
  induction s as [|c s IH]; [reflexivity|].
  destruct s as [|d s'].
  - simpl. intros H. destruct (is_dash c) eqn:E; [|reflexivity].
    apply is_dash_spec in E. congruence.
  - intros H. rewrite strip_trailing_dash_cons, IH; [reflexivity|exact H].
Qed.

(** A slug that is already well formed (characters of [[a-z0-9-]], no dash
    at either end) comes through the cleaning unchanged: the event is stored
    under the custom slug exactly as typed. *)
Theorem clean_slug_keeps_well_formed s :
  well_formed_slug s -> clean_slug s = s.
Proof.
  intros (Hchars & Hfirst & Hlast). unfold clean_slug, trim.
  assert (Hplain : all_chars (fun c => negb (is_space c)) s = true).
  { eapply all_chars_impl; [|exact Hchars]. intros c Hc.
    now rewrite (proj1 (custom_slug_char_plain c Hc)). }
  assert (Hstart : trimStart s = s).
  { destruct s as [|c s']; [reflexivity|]. simpl in *.
    apply andb_prop in Hplain as [Hc _]. apply negb_true_iff in Hc.
    now rewrite Hc. }
  rewrite Hstart, (trimEnd_plain _ Hplain), (toLowerCase_plain _ Hchars),
    (replace_runs_plain _ _ Hchars).
  unfold strip_edge_dashes.
  assert (Hlead : strip_leading_dash s = s).
  { destruct s as [|c s']; [reflexivity|]. simpl in *.
    destruct (is_dash c) eqn:E; [|reflexivity].
    apply is_dash_spec in E. congruence. }
  rewrite Hlead. now apply strip_trailing_dash_plain.
Qed.

Lemma clean_slug_keeps_well_formed_witness :
  clean_slug "rocq-meetup-2025" = "rocq-meetup-2025".
Proof.
  apply clean_slug_keeps_well_formed.
  split; [reflexivity|]. split; discriminate.
Defined.

Lemma no_double_dash_cons c s :
  no_double_dash (String c s)
  = negb (is_dash c && match first_char s with
                       | Some d => is_dash d
                       | None => false
                       end)
    && no_double_dash s.
Proof. destruct s; simpl; [now rewrite andb_false_r|reflexivity]. Qed.

Lemma replace_runs_dashes keep :
  (forall c, keep c = true -> is_dash c = false) ->
  forall s b,
    no_double_dash (replace_runs keep b s) = true /\
    (b = true ->
     match first_char (replace_runs keep b s) with
     | Some d => is_dash d
     | None => false
     end = false).
Proof.
  intros Hkeep. induction s as [|c s IH]; intros b.
  - simpl. now split.
  - simpl replace_runs. destruct (keep c) eqn:Hk.
    + destruct (IH false) as [H1 _].
      rewrite no_double_dash_cons, H1, (Hkeep c Hk). simpl.
      split; [reflexivity|]. intros _. now apply Hkeep.
    + destruct b; [apply IH|].
      destruct (IH true) as [H1 H2].
      rewrite no_double_dash_cons, H1, (H2 eq_refl).
      split; [now rewrite andb_false_r|discriminate].
Qed.

Lemma strip_leading_dash_dashes s :
  no_double_dash s = true ->
  no_double_dash (strip_leading_dash s) = true /\
  match first_char (strip_leading_dash s) with
  | Some d => is_dash d
  | None => false
  end = false.
Proof.
  destruct s as [|c s]; [now split|].
  rewrite no_double_dash_cons. intros H. apply andb_prop in H as [H1 H2].
  simpl strip_leading_dash. destruct (is_dash c) eqn:E.
  - split; [assumption|]. simpl in H1. now apply negb_true_iff in H1.
  - split; [|exact E]. now rewrite no_double_dash_cons, E, H2.
Qed.

Lemma strip_trailing_dash_first s :
  first_char (strip_trailing_dash s) = first_char s
  \/ strip_trailing_dash s = EmptyString.
Proof.
  destruct s as [|c [|d s]]; simpl; auto. destruct (is_dash c); auto.
Qed.

Lemma strip_trailing_dash_dashes s :
  no_double_dash s = true -> no_double_dash (strip_trailing_dash s) = true.
Proof.
  induction s as [|c s IH]; [reflexivity|].
  rewrite no_double_dash_cons. intros H. apply andb_prop in H as [H1 H2].
  destruct s as [|d s'].
  - simpl. now destruct (is_dash c).
  - rewrite strip_trailing_dash_cons, no_double_dash_cons, (IH H2), andb_true_r.
    destruct (strip_trailing_dash_first (String d s')) as [-> | ->];
      [exact H1|]. simpl. now rewrite andb_false_r.
Qed.

Lemma substring_first n s :
  first_char (substring 0 n s) = first_char s
  \/ substring 0 n s = EmptyString.
Proof. destruct n, s; simpl; auto. Qed.

Lemma substring_dashes n s :
  no_double_dash s = true -> no_double_dash (substring 0 n s) = true.
Proof.
  revert s. induction n as [|n IH]; intros [|c s]; try reflexivity.
  rewrite no_double_dash_cons. intros H. apply andb_prop in H as [H1 H2].
  change (substring 0 (S n) (String c s)) with (String c (substring 0 n s)).
  rewrite no_double_dash_cons, (IH s H2), andb_true_r.
  destruct (substring_first n s) as [-> | ->]; [exact H1|].
  simpl. now rewrite andb_false_r.
Qed.

Lemma all_chars_app p s1 s2 :
  all_chars p (s1 ++ s2) = all_chars p s1 && all_chars p s2.
Proof.
  induction s1 as [|c s1 IH]; simpl; [reflexivity|].
  now rewrite IH, andb_assoc.
Qed.

(** The generated slug: the part taken from the title has at most 40
    characters, all of them lower-case letters, digits or dashes, does not
    begin with a dash and has no two dashes in a row (it may end with one,
    where the title was cut).  With a suffix of letters and digits the whole
    slug stays within [[a-z0-9-]]; and it is never empty. *)
Theorem generateSlug_shape title suffix :
  String.length (slug_base title) <= 40 /\
  all_chars custom_slug_char (slug_base title) = true /\
  first_char (slug_base title) <> Some "-"%char /\
  no_double_dash (slug_base title) = true /\
  (all_chars slug_char suffix = true ->
   all_chars custom_slug_char (generateSlug title suffix) = true) /\
  generateSlug title suffix <> EmptyString.
Proof.
  assert (Hchars : all_chars custom_slug_char (slug_base title) = true).
  { unfold slug_base, strip_edge_dashes.
    apply substring_chars, strip_trailing_dash_chars, strip_leading_dash_chars.
    apply replace_runs_chars. }
  destruct (replace_runs_dashes slug_char slug_char_no_dash
              (toLowerCase title) false) as [Hdd _].
  destruct (strip_leading_dash_dashes _ Hdd) as [Hdd1 Hfirst1].
  pose proof (strip_trailing_dash_dashes _ Hdd1) as Hdd2.
  split; [apply substring_length|]. split; [exact Hchars|]. split; [|split].
  - unfold slug_base, strip_edge_dashes.
    destruct (substring_first 40
                (strip_trailing_dash
                   (strip_leading_dash
                      (replace_runs slug_char false (toLowerCase title)))))
      as [-> | ->]; [|discriminate].
    destruct (strip_trailing_dash_first
                (strip_leading_dash
                   (replace_runs slug_char false (toLowerCase title))))
      as [-> | ->]; [|discriminate].
    destruct (first_char _) as [d|]; [|discriminate].
    intros E. inversion E; subst d. discriminate Hfirst1.
  - unfold slug_base, strip_edge_dashes. now apply substring_dashes.
  - split.
    + intros Hs. unfold generateSlug. rewrite !all_chars_app, Hchars. simpl.
      eapply all_chars_impl; [|exact Hs]. intros c Hc.
      unfold custom_slug_char. now rewrite Hc.
    + unfold generateSlug. destruct (slug_base title); discriminate.
Qed.

Lemma generateSlug_shape_witness :
  all_chars custom_slug_char (generateSlug "Summer Picnic 2025!" "k3x9ab")
  = true.
Proof.
  apply (generateSlug_shape "Summer Picnic 2025!" "k3x9ab"). reflexivity.
Defined.

(** ** Accounts *)

(** [signup] creates the account exactly when name, email and password are
    given, the password has at least 6 characters and no account has the
    email: it then opens the session and stores, after the users there were,
    one account with the new id, the name, the email and the hash of the
    password; otherwise the users are left as they were.  In either case no
    two accounts end up with the same email. *)
Theorem signup_outcomes bcrypt_hash users name email password uuid salt :
  let r := signup bcrypt_hash users name email password uuid salt in
  (fst r = inr (mkSessionUser uuid name email) <->
   name <> EmptyString /\ email <> EmptyString /\
   6 <= String.length password /\ find_user users email = None) /\
  (fst r = inr (mkSessionUser uuid name email) ->
   snd r
   = (users ++ [mkUser uuid name email (bcrypt_hash salt password)])%list /\
   find_user (snd r) email
   = Some (mkUser uuid name email (bcrypt_hash salt password))) /\
  ((forall su, fst r <> inr su) -> snd r = users) /\
  (String.length password < 6 -> snd r = users) /\
  (NoDup (map user_email users) -> NoDup (map user_email (snd r))).
Proof.
  intros r. subst r. unfold signup, truthy.
  destruct (String.eqb_spec name EmptyString) as [Hn|Hn]; simpl.
  { repeat split; try tauto; try discriminate. }
  destruct (String.eqb_spec email EmptyString) as [He|He]; simpl.
  { repeat split; try tauto; try discriminate. }
  destruct (String.eqb_spec password EmptyString) as [Hp|Hp]; simpl.
  { subst password. repeat split; try tauto; try discriminate.
    simpl. intros (_ & _ & H & _). lia. }
  destruct (Nat.ltb_spec (String.length password) 6) as [Hlen|Hlen]; simpl.
  { repeat split; try tauto; try discriminate. intros (_ & _ & H & _). lia. }
  destruct (find_user users email) as [u|] eqn:Hfind; simpl.
  { repeat split; try tauto; try discriminate.
    intros (_ & _ & _ & H). discriminate. }
  split; [tauto|]. split; [|split; [|split]].
  - intros _. split; [reflexivity|].
    unfold find_user in *. rewrite find_append, Hfind. simpl.
    now rewrite String.eqb_refl.
  - intros H. exfalso. now apply (H (mkSessionUser uuid name email)).
  - lia.
  - intros Hnd. rewrite map_app. simpl. apply NoDup_snoc; [assumption|].
    intros Hin. apply in_map_iff in Hin as (u & Hu & Hin).
    apply (find_none _ _ Hfind) in Hin. simpl in Hin.
    rewrite Hu, String.eqb_refl in Hin. discriminate.
Qed.

Section Accounts.
Variable bcrypt_hash : string -> string -> string.
Variable bcrypt_compare : string -> string -> bool.

(** Signing up and then logging in with the same email and password opens a
    session for the very account that was created, given that
    [bcrypt.compare] accepts a password against its own hash.  A password the
    comparison rejects is answered like an unknown email. *)
Theorem signup_then_login users name email password uuid salt su users' :
  (forall s p, bcrypt_compare p (bcrypt_hash s p) = true) ->
  signup bcrypt_hash users name email password uuid salt = (inr su, users') ->
  login bcrypt_compare users' email password = inr su /\
  su = mkSessionUser uuid name email /\
  (forall other,
     other <> EmptyString ->
     bcrypt_compare other (bcrypt_hash salt password) = false ->
     login bcrypt_compare users' email other = inl AuthInvalidCredentials) /\
  (forall unknown,
     unknown <> EmptyString -> find_user users' unknown = None ->
     login bcrypt_compare users' unknown password
     = inl AuthInvalidCredentials).
Proof.
  intros Hbcrypt. unfold signup.
  destruct (truthy name); [|discriminate].
  destruct (truthy email) eqn:He; [|discriminate].
  destruct (truthy password) eqn:Hp; [|discriminate]. simpl.
  destruct (_ <? _)%nat; [discriminate|].
  destruct (find_user users email) eqn:Hfind; [discriminate|].
  intros H; inversion H; subst; clear H.
  assert (Hnew : find_user
                   (users ++ [mkUser uuid name email
                                (bcrypt_hash salt password)]) email
                 = Some (mkUser uuid name email (bcrypt_hash salt password))).
  { unfold find_user in *. rewrite find_append, Hfind. simpl.
    now rewrite String.eqb_refl. }
  split; [|split; [reflexivity|split]].
  - unfold login. rewrite He, Hp, Hnew. simpl. now rewrite Hbcrypt.
  - intros other Ho Hrej. unfold login.
    rewrite He, (truthy_true _ Ho), Hnew. simpl. now rewrite Hrej.
  - intros unknown Hu Hnone. unfold login.
    now rewrite (truthy_true _ Hu), Hp, Hnone.
Qed.

End Accounts.

Lemma signup_outcomes_witness :
  let users := [mkUser "u0" "Bob" "bob@example.org" "salt0hunter22"] in
  let r := signup String.append users "Ann" "ann@example.org" "secret1"
             "u1" "salt1" in
  snd r
  = (users ++ [mkUser "u1" "Ann" "ann@example.org" "salt1secret1"])%list /\
  find_user (snd r) "ann@example.org"
  = Some (mkUser "u1" "Ann" "ann@example.org" "salt1secret1").
Proof.
  apply (signup_outcomes String.append
           [mkUser "u0" "Bob" "bob@example.org" "salt0hunter22"]
           "Ann" "ann@example.org" "secret1" "u1" "salt1").
  reflexivity.
Defined.

Lemma signup_then_login_witness :
  login String.eqb
    (snd (signup (fun _ p => p) [] "Ann" "ann@example.org" "secret1" "u1"
            "salt"))
    "ann@example.org" "secret1"
  = inr (mkSessionUser "u1" "Ann" "ann@example.org").
Proof.
  apply (signup_then_login (fun _ p => p) String.eqb [] "Ann"
           "ann@example.org" "secret1" "u1" "salt"
           (mkSessionUser "u1" "Ann" "ann@example.org")
           (snd (signup (fun _ p => p) [] "Ann" "ann@example.org" "secret1"
                   "u1" "salt"))).
  - intros _ p. apply String.eqb_refl.
  - reflexivity.
Defined.

(** ** Duplicate registration, with the organizer at work *)




Section Undisturbed.
Variables slug email id : string.
Variable event : Event.



End Undisturbed.



